(** * QueueCTL: the durable job state machine, lease, retry/DLQ policy

    A shallow embedding of [queuectl/storage.py], [queuectl/config.py] and
    [queuectl/queue.py].

    - The [jobs] table is a list of rows in rowid (insertion) order; the
      [PRIMARY KEY] constraint on [id] is the predicate [primary_key].
    - Every SQL [UPDATE ... SET ... WHERE ...] is [sql_update where set],
      which returns the new rows and [cursor.rowcount].
    - Timestamps are the [datetime] values read from the clock, as the
      number of microseconds since [datetime.min] (0001-01-01T00:00:00);
      the table stores their [isoformat()] text, whose text order is the
      order of the instants.  Each [datetime.utcnow()] of the source is an
      explicit [now] argument of the function that reads it.
    - Nullable columns are [option]s; [worker_id] distinguishes SQL [NULL]
      ([None]) from the empty string ([Some ""]), as the source does.
    - A call that can raise returns an [Outcome]: the value it returns, or
      the exception it lets escape.  An integer bound to a statement must
      fit SQLite's 64-bit INTEGER ([sqlite_int]); a sum of a [datetime]
      and a [timedelta] must stay a [datetime] ([datetime_add]). *)

From Stdlib Require Import ZArith List String Bool Lia.
From Stdlib Require Import DecimalString Sorted Permutation.
Import ListNotations.
Local Open Scope Z_scope.

(** ** Exceptions and the limits of the run-time types *)

(** The exception the modelled calls let escape. *)
Inductive Exception : Type :=
| OverflowError.

(** A call either returns a value or raises. *)
Inductive Outcome (A : Type) : Type :=
| Returned (a : A)
| Raised (e : Exception).

Arguments Returned {A} a.
Arguments Raised {A} e.

(** [sqlite3] binds a Python integer only when it fits a signed 64-bit
    INTEGER; otherwise the [execute] raises [OverflowError] before the
    statement runs. *)
Definition sqlite_int (n : Z) : bool :=
  (-9223372036854775808 <=? n) && (n <=? 9223372036854775807).

(** [datetime.max] (9999-12-31T23:59:59.999999), in microseconds since
    [datetime.min]: 3652059 days of 86400 seconds, less one microsecond. *)
Definition datetime_max : Z := 315537897599999999.

(** [timedelta(seconds=n)] of an integer [n], in microseconds; it raises
    [OverflowError] ([None]) when the days, [n // 86400], exceed
    999999999 in magnitude. *)
Definition timedelta_seconds (n : Z) : option Z :=
  if (-999999999 <=? n / 86400) && (n / 86400 <=? 999999999)
  then Some (1000000 * n)
  else None.

(** [t + d] of a [datetime] and a [timedelta]; it raises [OverflowError]
    ([None]) when the sum is not a [datetime]. *)
Definition datetime_add (t d : Z) : option Z :=
  if (0 <=? t + d) && (t + d <=? datetime_max) then Some (t + d) else None.

(** ** storage.py *)

(** [class JobState]: the five state constants. *)
Inductive JobState : Type :=
| PENDING | PROCESSING | COMPLETED | FAILED | DLQ.

Definition JobState_eqb (a b : JobState) : bool :=
  match a, b with
  | PENDING, PENDING | PROCESSING, PROCESSING | COMPLETED, COMPLETED
  | FAILED, FAILED | DLQ, DLQ => true
  | _, _ => false
  end.

(** A row of the [jobs] table, column by column. *)
Record Job : Type := mkJob {
  id : string;
  command : string;
  state : JobState;
  attempts : Z;
  max_retries : Z;
  created_at : Z;
  updated_at : Z;
  started_at : option Z;
  completed_at : option Z;
  next_retry_at : option Z;
  error_message : option string;
  worker_id : option string;
  metadata : option string
}.

(** A row of the [workers] table. *)
Record WorkerRow : Type := mkWorker {
  w_worker_id : string;
  w_pid : Z;
  w_started_at : Z;
  w_last_heartbeat : Z;
  w_status : string
}.

(** The database file: both tables. *)
Record Store : Type := mkStore {
  jobs : list Job;
  workers : list WorkerRow
}.

Definition empty_store : Store := mkStore [] [].

(** The [PRIMARY KEY] constraint of [jobs.id]. *)
Definition primary_key (rows : list Job) : Prop := NoDup (map id rows).

(** SQL: [worker_id IS NULL OR worker_id = '']. *)
Definition unowned (r : Job) : bool :=
  match worker_id r with
  | None => true
  | Some w => String.eqb w ""%string
  end.

(** SQL: [worker_id = ?] (never true of a [NULL]). *)
Definition worker_id_is (w : string) (r : Job) : bool :=
  match worker_id r with
  | None => false
  | Some w' => String.eqb w' w
  end.

(** SQL: [next_retry_at <= ?] (never true of a [NULL]). *)
Definition next_retry_at_le (now : Z) (r : Job) : bool :=
  match next_retry_at r with
  | None => false
  | Some t => t <=? now
  end.

(** [UPDATE jobs SET set WHERE where_]: the rows afterwards and the
    number of rows the statement matched ([cursor.rowcount]). *)
Definition sql_update (where_ : Job -> bool) (set : Job -> Job)
    (rows : list Job) : list Job * nat :=
  (map (fun r => if where_ r then set r else r) rows,
   List.length (filter where_ rows)).

(** [ORDER BY created_at ASC]: a stable insertion sort, so that rows with
    equal keys stay in rowid order. *)
Fixpoint insert_by_created_at (r : Job) (rows : list Job) : list Job :=
  match rows with
  | [] => [r]
  | r' :: rest =>
      if created_at r <=? created_at r' then r :: rows
      else r' :: insert_by_created_at r rest
  end.

Definition order_by_created_at_asc (rows : list Job) : list Job :=
  fold_right insert_by_created_at [] rows.

(** [enqueue_job]: the [INSERT].  Binding a [max_retries] that is not a
    64-bit integer raises [OverflowError], which the method does not
    catch; an existing [id] raises [sqlite3.IntegrityError], which the
    method turns into [False]. *)
Definition enqueue_job (job_id cmd : string) (maxr : Z)
    (metadata_json : option string) (now : Z) (s : Store)
    : Store * Outcome bool :=
  if negb (sqlite_int maxr) then (s, Raised OverflowError)
  else if existsb (fun r => String.eqb (id r) job_id) (jobs s)
  then (s, Returned false)
  else
    (mkStore
       (jobs s ++
        [mkJob job_id cmd PENDING 0 maxr now now None None None None None
               metadata_json])
       (workers s),
     Returned true).

(** [get_job]: [SELECT * FROM jobs WHERE id = ?], [fetchone]. *)
Definition get_job (job_id : string) (s : Store) : option Job :=
  find (fun r => String.eqb (id r) job_id) (jobs s).

(** The [WHERE] clause of the lease's [SELECT]. *)
Definition lease_select (now : Z) (r : Job) : bool :=
  (JobState_eqb (state r) PENDING
   || (JobState_eqb (state r) FAILED && next_retry_at_le now r))
  && unowned r.

(** The [SET] clause of the lease's [UPDATE]. *)
Definition lease_set (w : string) (now : Z) (r : Job) : Job :=
  mkJob (id r) (command r) PROCESSING (attempts r) (max_retries r)
        (created_at r) now (Some now) (completed_at r) (next_retry_at r)
        (error_message r) (Some w) (metadata r).

(** The dictionary the lease returns: the row as it was selected, with
    [job['state']] and [job['worker_id']] overwritten. *)
Definition lease_dict (w : string) (r : Job) : Job :=
  mkJob (id r) (command r) PROCESSING (attempts r) (max_retries r)
        (created_at r) (updated_at r) (started_at r) (completed_at r)
        (next_retry_at r) (error_message r) (Some w) (metadata r).

(** [get_next_pending_job]. *)
Definition get_next_pending_job (w : string) (now : Z) (s : Store)
    : Store * option Job :=
  match hd_error (order_by_created_at_asc (filter (lease_select now) (jobs s))) with
  | None => (s, None)
  | Some row =>
      let '(rows', rowcount) :=
        sql_update (fun r => String.eqb (id r) (id row) && unowned r)
                   (lease_set w now) (jobs s) in
      (mkStore rows' (workers s),
       if (0 <? rowcount)%nat then Some (lease_dict w row) else None)
  end.

(** [worker_id or '']. *)
Definition or_empty (w : option string) : string :=
  match w with
  | None => ""%string
  | Some x => x
  end.

(** The two [SET] clauses of [update_job_state]. *)
Definition update_job_state_set (st : JobState) (err : option string)
    (w : option string) (now : Z) (r : Job) : Job :=
  match st with
  | COMPLETED =>
      mkJob (id r) (command r) st (attempts r) (max_retries r)
            (created_at r) now (started_at r) (Some now) (next_retry_at r)
            err (worker_id r) (metadata r)
  | _ =>
      mkJob (id r) (command r) st (attempts r) (max_retries r)
            (created_at r) now (started_at r) (completed_at r)
            (next_retry_at r) err (Some (or_empty w)) (metadata r)
  end.

(** [update_job_state]. *)
Definition update_job_state (job_id : string) (st : JobState)
    (err : option string) (w : option string) (now : Z) (s : Store)
    : Store * bool :=
  let '(rows', rowcount) :=
    sql_update (fun r => String.eqb (id r) job_id)
               (update_job_state_set st err w now) (jobs s) in
  (mkStore rows' (workers s), (0 <? rowcount)%nat).

Definition increment_job_attempts_set (nra : Z) (err : option string)
    (now : Z) (r : Job) : Job :=
  mkJob (id r) (command r) FAILED (attempts r + 1) (max_retries r)
        (created_at r) now (started_at r) (completed_at r) (Some nra)
        err (Some ""%string) (metadata r).

(** [increment_job_attempts]. *)
Definition increment_job_attempts (job_id : string) (nra : Z)
    (err : option string) (now : Z) (s : Store) : Store * bool :=
  let '(rows', rowcount) :=
    sql_update (fun r => String.eqb (id r) job_id)
               (increment_job_attempts_set nra err now) (jobs s) in
  (mkStore rows' (workers s), (0 <? rowcount)%nat).

Definition move_to_dlq_set (err : option string) (now : Z) (r : Job) : Job :=
  mkJob (id r) (command r) DLQ (attempts r) (max_retries r)
        (created_at r) now (started_at r) (completed_at r)
        (next_retry_at r) err (Some ""%string) (metadata r).

(** [move_to_dlq]. *)
Definition move_to_dlq (job_id : string) (err : option string) (now : Z)
    (s : Store) : Store * bool :=
  let '(rows', rowcount) :=
    sql_update (fun r => String.eqb (id r) job_id)
               (move_to_dlq_set err now) (jobs s) in
  (mkStore rows' (workers s), (0 <? rowcount)%nat).

(** [register_worker]: [INSERT OR REPLACE INTO workers].  Binding a [pid]
    that is not a 64-bit integer raises [OverflowError], which the
    method's [except Exception] turns into [False]. *)
Definition register_worker (w : string) (pid now : Z) (s : Store)
    : Store * bool :=
  if negb (sqlite_int pid) then (s, false)
  else
    (mkStore (jobs s)
       (filter (fun x => negb (String.eqb (w_worker_id x) w)) (workers s)
        ++ [mkWorker w pid now now "active"%string]),
     true).

Definition deregister_worker_where (w : string) (r : Job) : bool :=
  worker_id_is w r && JobState_eqb (state r) PROCESSING.

Definition deregister_worker_set (r : Job) : Job :=
  mkJob (id r) (command r) PENDING (attempts r) (max_retries r)
        (created_at r) (updated_at r) (started_at r) (completed_at r)
        (next_retry_at r) (error_message r) (Some ""%string) (metadata r).

(** [deregister_worker]: releases the worker's jobs, deletes its row. *)
Definition deregister_worker (w : string) (s : Store) : Store * bool :=
  let '(rows', _) :=
    sql_update (deregister_worker_where w) deregister_worker_set (jobs s) in
  (mkStore rows'
     (filter (fun x => negb (String.eqb (w_worker_id x) w)) (workers s)),
   true).

(** ** config.py *)

(** The keys of [Config.config] that the queue reads. *)
Record Config : Type := mkConfig {
  cfg_max_retries : Z;
  backoff_base : Z;
  backoff_max_delay : Z
}.

(** [Config.DEFAULTS]. *)
Definition DEFAULTS : Config := mkConfig 3 2 3600.

(** [Config.calculate_backoff_delay]: [min(base ** attempts, max_delay)].
    Python's [**] on integers is [Z.pow] for a non-negative exponent. *)
Definition calculate_backoff_delay (cfg : Config) (n : Z) : Z :=
  let delay := backoff_base cfg ^ n in
  Z.min delay (backoff_max_delay cfg).

(** ** queue.py *)

(** The [job_data] dictionary of [Queue.enqueue]: the reserved keys, and
    the remaining keys (already serialised) when there are any. *)
Record JobData : Type := mkJobData {
  jd_id : option string;
  jd_command : option string;
  jd_max_retries : option Z;
  jd_extra : option string
}.

(** The [message] of a returned dictionary, by its format string. *)
Inductive Message : Type :=
| MissingFields
| Enqueued (job_id : string)
| AlreadyExists (job_id : string)
| NotFound (job_id : string)
| CannotBeRetried (job_id : string) (st : JobState)
| MovedBackToPending (job_id : string)
| FailedToRetry (job_id : string).

(** The [{'success': ..., 'message': ...}] dictionaries. *)
Record Result : Type := mkResult {
  success : bool;
  message : Message
}.

(** [Queue.enqueue]; an exception of [enqueue_job] passes through. *)
Definition enqueue (cfg : Config) (jd : JobData) (now : Z) (s : Store)
    : Store * Outcome Result :=
  match jd_id jd, jd_command jd with
  | Some job_id, Some cmd =>
      if String.eqb job_id ""%string || String.eqb cmd ""%string
      then (s, Returned (mkResult false MissingFields))
      else
        let maxr :=
          match jd_max_retries jd with
          | Some m => m
          | None => cfg_max_retries cfg
          end in
        match enqueue_job job_id cmd maxr (jd_extra jd) now s with
        | (s', Returned true) =>
            (s', Returned (mkResult true (Enqueued job_id)))
        | (s', Returned false) =>
            (s', Returned (mkResult false (AlreadyExists job_id)))
        | (s', Raised e) => (s', Raised e)
        end
  | _, _ => (s, Returned (mkResult false MissingFields))
  end.

(** [Queue.retry_job]. *)
Definition retry_job (job_id : string) (now : Z) (s : Store)
    : Store * Result :=
  match get_job job_id s with
  | None => (s, mkResult false (NotFound job_id))
  | Some job =>
      match state job with
      | FAILED | DLQ =>
          let '(s', ok) := update_job_state job_id PENDING None None now s in
          if ok then (s', mkResult true (MovedBackToPending job_id))
          else (s', mkResult false (FailedToRetry job_id))
      | st => (s, mkResult false (CannotBeRetried job_id st))
      end
  end.

(** [Queue.handle_job_success]. *)
Definition handle_job_success (job_id w : string) (now : Z) (s : Store)
    : Store * bool :=
  update_job_state job_id COMPLETED None (Some w) now s.

(** [datetime.utcnow() + timedelta(seconds=delay)]. *)
Definition retry_time (now_q delay : Z) : option Z :=
  match timedelta_seconds delay with
  | Some d => datetime_add now_q d
  | None => None
  end.

(** The dictionaries [Queue.handle_job_failure] returns. *)
Inductive FailureResult : Type :=
| FailureError
| FailureDlq (attempts_after : Z)
| FailureRetry (backoff_delay attempts_after maxr nra : Z).

Definition action (r : FailureResult) : string :=
  match r with
  | FailureError => "error"
  | FailureDlq _ => "dlq"
  | FailureRetry _ _ _ _ => "retry"
  end.

(** [Queue.handle_job_failure].  [now_q] is the clock read by the queue
    for [next_retry_at], [now] the one read by the storage method.  When
    the retry time is not a [datetime] the sum raises [OverflowError],
    before anything is written. *)
Definition handle_job_failure (cfg : Config) (job_id err w : string)
    (now_q now : Z) (s : Store) : Store * Outcome FailureResult :=
  match get_job job_id s with
  | None => (s, Returned FailureError)
  | Some job =>
      let attempts_after := attempts job + 1 in
      let maxr := max_retries job in
      if attempts_after >=? maxr then
        (fst (move_to_dlq job_id (Some err) now s),
         Returned (FailureDlq attempts_after))
      else
        let backoff_delay := calculate_backoff_delay cfg attempts_after in
        match retry_time now_q backoff_delay with
        | Some nra =>
            (fst (increment_job_attempts job_id nra (Some err) now s),
             Returned (FailureRetry backoff_delay attempts_after maxr nra))
        | None => (s, Raised OverflowError)
        end
  end.

(** ** Sequences of queue operations *)

Inductive Op : Type :=
| OpEnqueue (jd : JobData) (now : Z)
| OpLease (w : string) (now : Z)
| OpComplete (job_id w : string) (now : Z)
| OpFail (job_id err w : string) (now_q now : Z)
| OpRetry (job_id : string) (now : Z).

Definition step (cfg : Config) (s : Store) (op : Op) : Store :=
  match op with
  | OpEnqueue jd now => fst (enqueue cfg jd now s)
  | OpLease w now => fst (get_next_pending_job w now s)
  | OpComplete job_id w now => fst (handle_job_success job_id w now s)
  | OpFail job_id err w now_q now =>
      fst (handle_job_failure cfg job_id err w now_q now s)
  | OpRetry job_id now => fst (retry_job job_id now s)
  end.

Definition run (cfg : Config) (ops : list Op) (s : Store) : Store :=
  fold_left (step cfg) ops s.

(** The decision of [handle_job_failure] on a row: [true] for the DLQ. *)
Definition decides_dlq (job : Job) : bool :=
  attempts job + 1 >=? max_retries job.

(** The decision taken by the last [OpFail] of [ops] that found the job
    [job_id]; [acc] is the decision before [ops], [s] the store. *)
Fixpoint last_failure (cfg : Config) (job_id : string) (ops : list Op)
    (s : Store) (acc : option bool) : option bool :=
  match ops with
  | [] => acc
  | op :: rest =>
      let acc' :=
        match op with
        | OpFail i _ _ _ _ =>
            if String.eqb i job_id then
              match get_job job_id s with
              | Some job => Some (decides_dlq job)
              | None => acc
              end
            else acc
        | _ => acc
        end in
      last_failure cfg job_id rest (step cfg s op) acc'
  end.

(** The max_retries a job is enqueued with is not negative. *)
Definition enqueues_nonneg (cfg : Config) (op : Op) : Prop :=
  match op with
  | OpEnqueue jd _ =>
      match jd_max_retries jd with
      | Some m => 0 <= m
      | None => 0 <= cfg_max_retries cfg
      end
  | _ => True
  end.

(** ** The job state machine, row by row

    [row_step cfg k op r r']: the operation [op] turns the row [r] stored
    under the id [k] into [r'].  It is the lifecycle of the specification
    as the code implements it. *)
Inductive row_step (cfg : Config) (k : string) : Op -> Job -> Job -> Prop :=
| rs_keep op r :
    (forall err w now_q now, op <> OpFail k err w now_q now) ->
    row_step cfg k op r r
| rs_lease w now r :
    unowned r = true ->
    row_step cfg k (OpLease w now) r (lease_set w now r)
| rs_complete w now r :
    row_step cfg k (OpComplete k w now) r
             (update_job_state_set COMPLETED None (Some w) now r)
| rs_retry now r :
    state r = FAILED \/ state r = DLQ ->
    row_step cfg k (OpRetry k now) r
             (update_job_state_set PENDING None None now r)
| rs_dlq err w now_q now r :
    decides_dlq r = true ->
    row_step cfg k (OpFail k err w now_q now) r
             (move_to_dlq_set (Some err) now r)
| rs_fail err w now_q now r nra :
    decides_dlq r = false ->
    retry_time now_q (calculate_backoff_delay cfg (attempts r + 1))
    = Some nra ->
    row_step cfg k (OpFail k err w now_q now) r
             (increment_job_attempts_set nra (Some err) now r)
| rs_raise err w now_q now r :
    decides_dlq r = false ->
    retry_time now_q (calculate_backoff_delay cfg (attempts r + 1)) = None ->
    row_step cfg k (OpFail k err w now_q now) r r.

(** The row a successful [OpEnqueue] creates. *)
Definition fresh_row (cfg : Config) (op : Op) (r : Job) : Prop :=
  exists jd now,
    op = OpEnqueue jd now /\
    state r = PENDING /\ attempts r = 0 /\
    max_retries r =
      match jd_max_retries jd with
      | Some m => m
      | None => cfg_max_retries cfg
      end.

(** The spec's eligibility for a lease, in its own words. *)
Definition eligible (now : Z) (r : Job) : Prop :=
  (state r = PENDING \/
   (state r = FAILED /\ exists t, next_retry_at r = Some t /\ t <= now)) /\
  (worker_id r = None \/ worker_id r = Some ""%string).

(** What the budget invariant says of one row. *)
Definition within_budget (r : Job) : Prop :=
  0 <= attempts r /\
  0 <= max_retries r /\
  (attempts r = 0 \/ attempts r < max_retries r) /\
  (state r = DLQ -> max_retries r <= attempts r + 1).

(** ** Scenarios *)

(** S2 of the specification and [test_2_retry_and_dlq]. *)
Definition cfg_s2 : Config := mkConfig 2 2 3600.

Definition job_b : JobData :=
  mkJobData (Some "b"%string) (Some "false"%string) (Some 2) None.

Definition s2_ops : list Op :=
  [ OpEnqueue job_b 0;
    OpLease "test-worker-2" 1000000;
    OpFail "b" "Exit code 1: " "test-worker-2" 1100000 1100001;
    OpLease "test-worker-2" 3200000;
    OpFail "b" "Exit code 1: " "test-worker-2" 3300000 3300001 ]%string.

(** S1: one job, leased and completed by one worker. *)
Definition job_a : JobData :=
  mkJobData (Some "a"%string) (Some "true"%string) None None.

Definition s1_leased_ops : list Op :=
  [ OpEnqueue job_a 0;
    OpLease "w1" 10 ]%string.

Definition s1_ops : list Op :=
  s1_leased_ops ++ [ OpComplete "a" "w1" 20 ]%string.

Definition s1_leased : Store := run DEFAULTS s1_leased_ops empty_store.
Definition s1_completed : Store := run DEFAULTS s1_ops empty_store.

(** S6: a job with a budget of one fails once and is retried by hand. *)
Definition job_c : JobData :=
  mkJobData (Some "c"%string) (Some "nonexistent_xyz"%string) (Some 1) None.

Definition s6_dlq_ops : list Op :=
  [ OpEnqueue job_c 0;
    OpLease "w1" 10;
    OpFail "c" "Exit code 127: " "w1" 20 21 ]%string.

Definition s6_ops : list Op := s6_dlq_ops ++ [ OpRetry "c" 30 ]%string.

Definition s6_dlq : Store := run DEFAULTS s6_dlq_ops empty_store.

(** A job of budget three after its first failure at time 20. *)
Definition failed_once_ops : list Op :=
  [ OpEnqueue job_a 0;
    OpLease "w1" 10;
    OpFail "a" "Exit code 1: " "w1" 20 21 ]%string.

Definition failed_once : Store := run DEFAULTS failed_once_ops empty_store.

(** Two pending jobs; the second row is the older one. *)
Definition two_pending : Store :=
  run DEFAULTS
      [ OpEnqueue (mkJobData (Some "x") (Some "true") None None) 7;
        OpEnqueue (mkJobData (Some "y") (Some "true") None None) 3 ]%string
      empty_store.

(** A configuration [Config.set] accepts, with a delay of 10 ** 12
    seconds after the first failure. *)
Definition cfg_far : Config := mkConfig 3 1000000000000 1000000000000.

(** 2026-11-04T00:00:00, in microseconds since [datetime.min]. *)
Definition nov_2026 : Z := 63929347200000000.

(** A job of budget three after its first failure, leased again. *)
Definition failed_once_leased : Store :=
  run DEFAULTS (failed_once_ops ++ [ OpLease "w2" 3000000 ]%string)
      empty_store.

(** A producer that submits a negative budget. *)
Definition job_neg : JobData :=
  mkJobData (Some "n"%string) (Some "true"%string) (Some (-1)) None.

(** ** storage.py: listings, statistics and the workers table *)

(** [ORDER BY created_at DESC]. *)
Fixpoint insert_by_created_at_desc (r : Job) (rows : list Job) : list Job :=
  match rows with
  | [] => [r]
  | r' :: rest =>
      if created_at r' <=? created_at r then r :: rows
      else r' :: insert_by_created_at_desc r rest
  end.

Definition order_by_created_at_desc (rows : list Job) : list Job :=
  fold_right insert_by_created_at_desc [] rows.

(** [LIMIT ?]: SQLite puts no upper bound when the limit is negative. *)
Definition sql_limit {A : Type} (limit : Z) (rows : list A) : list A :=
  if limit <? 0 then rows else firstn (Z.to_nat limit) rows.

(** [list_jobs]: [if state:] filters on the state when one is given.
    Binding a [limit] that is not a 64-bit integer raises
    [OverflowError]. *)
Definition list_jobs (st : option JobState) (limit : Z) (s : Store)
    : Outcome (list Job) :=
  if negb (sqlite_int limit) then Raised OverflowError
  else
    Returned
      match st with
      | Some st' =>
          sql_limit limit
            (order_by_created_at_desc
               (filter (fun r => JobState_eqb (state r) st') (jobs s)))
      | None => sql_limit limit (order_by_created_at_desc (jobs s))
      end.

Definition JobState_eq_dec (a b : JobState) : {a = b} + {a <> b}.
Proof. decide equality. Defined.

(** [SELECT state, COUNT( * ) FROM jobs GROUP BY state]: one result row
    for every state that occurs in the table. *)
Definition count_state (st : JobState) (rows : list Job) : nat :=
  List.length (filter (fun r => JobState_eqb (state r) st) rows).

Definition group_by_state (rows : list Job) : list (JobState * nat) :=
  map (fun st => (st, count_state st rows))
      (nodup JobState_eq_dec (map state rows)).

(** A Python [dict] from states to counts, in insertion order. *)
Definition StatsDict : Type := list (JobState * nat).

(** [d[k]] as [d.get(k)]. *)
Fixpoint stats_get (k : JobState) (d : StatsDict) : option nat :=
  match d with
  | [] => None
  | (k', v) :: rest => if JobState_eqb k' k then Some v else stats_get k rest
  end.

(** [d[k] = v]: overwrites the entry of [k], or adds one at the end. *)
Fixpoint stats_set (k : JobState) (v : nat) (d : StatsDict) : StatsDict :=
  match d with
  | [] => [(k, v)]
  | (k', v') :: rest =>
      if JobState_eqb k' k then (k', v) :: rest
      else (k', v') :: stats_set k v rest
  end.

Definition zero_stats : StatsDict :=
  [(PENDING, 0%nat); (PROCESSING, 0%nat); (COMPLETED, 0%nat);
   (FAILED, 0%nat); (DLQ, 0%nat)].

(** [get_job_stats]. *)
Definition get_job_stats (s : Store) : StatsDict :=
  fold_left (fun stats row => stats_set (fst row) (snd row) stats)
            (group_by_state (jobs s)) zero_stats.

(** [update_worker_heartbeat]. *)
Definition update_worker_heartbeat (w : string) (now : Z) (s : Store)
    : Store * bool :=
  (mkStore (jobs s)
     (map (fun x =>
             if String.eqb (w_worker_id x) w
             then mkWorker (w_worker_id x) (w_pid x) (w_started_at x) now
                           (w_status x)
             else x)
          (workers s)),
   (0 <? List.length
           (filter (fun x => String.eqb (w_worker_id x) w) (workers s)))%nat).

(** [SELECT * FROM workers WHERE worker_id = ?]. *)
Definition get_worker (w : string) (s : Store) : option WorkerRow :=
  find (fun x => String.eqb (w_worker_id x) w) (workers s).

(** ** queue.py: statistics and listings *)

(** The dictionary [Queue.get_stats] returns. *)
Record Stats : Type := mkStats {
  stats_jobs : StatsDict;
  total_jobs : nat;
  workers_active : nat;
  workers_total : nat
}.

(** [sum(job_stats.values())]. *)
Definition sum_values (d : StatsDict) : nat :=
  fold_right (fun kv acc => (snd kv + acc)%nat) 0%nat d.

(** [Queue.get_stats]. *)
Definition get_stats (s : Store) : Stats :=
  let job_stats := get_job_stats s in
  let worker_stats := workers s in
  mkStats job_stats (sum_values job_stats)
          (List.length
             (filter (fun x => String.eqb (w_status x) "active"%string)
                     worker_stats))
          (List.length worker_stats).

(** [Queue.get_dlq_jobs]. *)
Definition get_dlq_jobs (limit : Z) (s : Store) : Outcome (list Job) :=
  list_jobs (Some DLQ) limit s.

(** ** worker.py: one job, one turn of the loop *)

(** [str(n)] of an integer. *)
Definition str_of_Z (n : Z) : string :=
  DecimalString.NilZero.string_of_int (Z.to_int n).

(** The result of [execute_command]: exit code, stdout, stderr. *)
Record Executed : Type := mkExecuted {
  exit_code : Z;
  stdout : string;
  stderr : string
}.

(** The error message of [Worker._process_job]:
    [f"Exit code {exit_code}: {stderr[:500]}"]. *)
Definition failure_message (e : Executed) : string :=
  ("Exit code " ++ str_of_Z (exit_code e) ++ ": "
   ++ substring 0 500 (stderr e))%string.

(** [Worker._process_job]; [execute] stands for [execute_command] with
    the configured timeout.  An exception of [handle_job_failure] passes
    through. *)
Definition process_job (cfg : Config) (execute : string -> Executed)
    (w : string) (job : Job) (now_q now : Z) (s : Store)
    : Store * Outcome unit :=
  let e := execute (command job) in
  if exit_code e =? 0
  then (fst (handle_job_success (id job) w now s), Returned tt)
  else
    match handle_job_failure cfg (id job) (failure_message e) w now_q now s
    with
    | (s', Returned _) => (s', Returned tt)
    | (s', Raised exn) => (s', Raised exn)
    end.

(** One turn of the loop of [Worker.start], the heartbeat aside: lease,
    then process.  [now_lease] is the clock of the lease, [now_q] and
    [now] those of the report.  A turn that raises ends the loop. *)
Definition worker_turn (cfg : Config) (execute : string -> Executed)
    (w : string) (now_lease now_q now : Z) (s : Store)
    : Store * Outcome unit :=
  match get_next_pending_job w now_lease s with
  | (s', Some job) => process_job cfg execute w job now_q now s'
  | (s', None) => (s', Returned tt)
  end.

(** The [finally] block of [Worker.start], run when the loop ends, also
    by an exception: the worker's jobs are released and its row deleted. *)
Definition worker_finally (w : string) (s : Store) : Store :=
  fst (deregister_worker w s).

(** ** The stores the code can produce

    [evolves cfg s0 s]: the store [s] comes from [s0] by queue operations
    and by the worker table operations of a worker's life. *)
Inductive evolves (cfg : Config) (s0 : Store) : Store -> Prop :=
| ev_refl : evolves cfg s0 s0
| ev_step s op :
    evolves cfg s0 s -> evolves cfg s0 (step cfg s op)
| ev_register s w pid now :
    evolves cfg s0 s -> evolves cfg s0 (fst (register_worker w pid now s))
| ev_heartbeat s w now :
    evolves cfg s0 s ->
    evolves cfg s0 (fst (update_worker_heartbeat w now s))
| ev_deregister s w :
    evolves cfg s0 s -> evolves cfg s0 (fst (deregister_worker w s)).

(** The stores reachable from the empty database. *)
Definition reachable (cfg : Config) (s : Store) : Prop :=
  evolves cfg empty_store s.

(** What every row of a reachable store satisfies. *)
Definition row_consistent (r : Job) : Prop :=
  0 <= attempts r /\
  (state r = PROCESSING ->
   worker_id r <> None /\ started_at r <> None) /\
  (state r = PENDING \/ state r = FAILED \/ state r = DLQ ->
   unowned r = true) /\
  (state r = FAILED -> next_retry_at r <> None /\ 1 <= attempts r) /\
  (state r = COMPLETED -> completed_at r <> None).

(** ** utils.py *)

(** [s[:k]] of Python, for any integer [k]. *)
Definition py_prefix (k : Z) (s : string) : string :=
  let len := Z.of_nat (String.length s) in
  let stop := if k <? 0 then Z.max 0 (len + k) else Z.min k len in
  substring 0 (Z.to_nat stop) s.

(** [truncate_string]. *)
Definition truncate_string (s : string) (max_length : Z) : string :=
  if Z.of_nat (String.length s) <=? max_length then s
  else (py_prefix (max_length - 3) s ++ "...")%string.

(** The filter of [list_jobs], as a property of a row. *)
Definition state_matches (st : option JobState) (r : Job) : Prop :=
  match st with
  | Some st' => state r = st'
  | None => True
  end.

(** ** config.py: the configuration dictionary *)

(** The values the configuration holds: integers and strings. *)
Inductive ConfigValue : Type :=
| VInt (n : Z)
| VStr (v : string).

(** [Config.config]: a Python [dict], in insertion order. *)
Definition ConfigDict : Type := list (string * ConfigValue).

(** [Config.DEFAULTS]. *)
Definition DEFAULTS_dict : ConfigDict :=
  [ ("max_retries", VInt 3);
    ("backoff_base", VInt 2);
    ("backoff_max_delay", VInt 3600);
    ("worker_poll_interval", VInt 1);
    ("worker_heartbeat_interval", VInt 5);
    ("job_timeout", VInt 300);
    ("db_path", VStr "queuectl.db");
    ("log_level", VStr "INFO") ]%string.

(** [d.get(key)]. *)
Fixpoint dict_get (key : string) (d : ConfigDict) : option ConfigValue :=
  match d with
  | [] => None
  | (k, v) :: rest => if String.eqb k key then Some v else dict_get key rest
  end.

(** [d[key] = value]. *)
Fixpoint dict_set (key : string) (value : ConfigValue) (d : ConfigDict)
    : ConfigDict :=
  match d with
  | [] => [(key, value)]
  | (k, v) :: rest =>
      if String.eqb k key then (k, value) :: rest
      else (k, v) :: dict_set key value rest
  end.

(** The keys [Config.set] validates. *)
Definition numeric_keys : list string :=
  [ "max_retries"; "backoff_base"; "worker_poll_interval";
    "worker_heartbeat_interval"; "job_timeout"; "backoff_max_delay" ]%string.

Definition is_numeric_key (key : string) : bool :=
  existsb (String.eqb key) numeric_keys.

(** [Config.get]. *)
Definition config_get (key : string) (default : option ConfigValue)
    (d : ConfigDict) : option ConfigValue :=
  match dict_get key d with
  | Some v => Some v
  | None => default
  end.

Section ConfigWrites.

(** [int(v)] of a string: the integer it denotes, or [ValueError]. *)
Variable py_int : string -> option Z.

(** [value = int(value) if not isinstance(value, int) else value]. *)
Definition coerce_int (value : ConfigValue) : option Z :=
  match value with
  | VInt n => Some n
  | VStr v => py_int v
  end.

(** [Config.set]; [saved] is what [_save_config] returns. *)
Definition config_set (saved : bool) (key : string) (value : ConfigValue)
    (d : ConfigDict) : ConfigDict * bool :=
  if is_numeric_key key then
    match coerce_int value with
    | Some n =>
        if n <? 0 then (d, false)
        else (dict_set key (VInt n) d, saved)
    | None => (d, false)
    end
  else (dict_set key value d, saved).

(** [Config.reset]; [if key:] takes [None] and the empty key alike. *)
Definition config_reset (saved : bool) (key : option string)
    (d : ConfigDict) : ConfigDict * bool :=
  match key with
  | Some k =>
      if String.eqb k ""%string then (DEFAULTS_dict, saved)
      else
        match dict_get k DEFAULTS_dict with
        | Some v => (dict_set k v d, saved)
        | None => (d, false)
        end
  | None => (DEFAULTS_dict, saved)
  end.

(** The configurations [set] and [reset] produce from the defaults. *)
Inductive config_evolves : ConfigDict -> Prop :=
| ce_defaults : config_evolves DEFAULTS_dict
| ce_set d saved key value :
    config_evolves d -> config_evolves (fst (config_set saved key value d))
| ce_reset d saved key :
    config_evolves d -> config_evolves (fst (config_reset saved key d)).

End ConfigWrites.

(** The order of a listing: [a] is listed before [b]. *)
Definition newer_first (a b : Job) : Prop := created_at b <= created_at a.

(** * Properties *)

(** ** Booleans of the [WHERE] clauses *)

Lemma JobState_eqb_eq (a b : JobState) : JobState_eqb a b = true <-> a = b.
Proof. destruct a, b; simpl; split; intro H; try reflexivity; discriminate. Qed.

Lemma unowned_spec (r : Job) :
  unowned r = true <-> worker_id r = None \/ worker_id r = Some ""%string.
Proof.
  unfold unowned. destruct (worker_id r) as [w|].
  - rewrite String.eqb_eq. split.
    + intros ->. now right.
    + intros [H|H]; [discriminate | now injection H].
  - split; auto.
Qed.

Lemma worker_id_is_spec (w : string) (r : Job) :
  worker_id_is w r = true <-> worker_id r = Some w.
Proof.
  unfold worker_id_is. destruct (worker_id r) as [w'|].
  - rewrite String.eqb_eq. split; [intros -> | intros [= ->]]; reflexivity.
  - split; discriminate.
Qed.

Lemma lease_select_spec (now : Z) (r : Job) :
  lease_select now r = true <-> eligible now r.
Proof.
  unfold lease_select, eligible, next_retry_at_le.
  rewrite andb_true_iff, orb_true_iff, andb_true_iff, unowned_spec.
  rewrite !JobState_eqb_eq.
  destruct (next_retry_at r) as [t|].
  - rewrite Z.leb_le. split.
    + intros [[H|[H1 H2]] H3]; split; auto. right. eauto.
    + intros [[H|[H1 (t' & [= <-] & H2)]] H3]; auto.
  - split.
    + intros [[H|[_ H]] H3]; [auto | discriminate].
    + intros [[H|[_ (t' & H & _)]] H3]; [auto | discriminate].
Qed.

(** ** [SELECT ... WHERE id = ?] over updated rows *)

Lemma find_id_map (f : Job -> Job) (k : string) (rows : list Job) :
  (forall r, id (f r) = id r) ->
  find (fun r => String.eqb (id r) k) (map f rows)
  = option_map f (find (fun r => String.eqb (id r) k) rows).
Proof.
  intros Hf. induction rows as [|a rows IH]; simpl; [reflexivity|].
  rewrite Hf. destruct (String.eqb (id a) k); [reflexivity | exact IH].
Qed.

Lemma get_job_In (k : string) (s : Store) (r : Job) :
  get_job k s = Some r -> In r (jobs s) /\ id r = k.
Proof.
  unfold get_job. intros H. apply find_some in H.
  now rewrite String.eqb_eq in H.
Qed.

Lemma In_get_job (s : Store) (r : Job) :
  primary_key (jobs s) -> In r (jobs s) -> get_job (id r) s = Some r.
Proof.
  unfold primary_key, get_job. induction (jobs s) as [|a rows IH]; simpl.
  - intros _ [].
  - intros Hnd [-> | Hin].
    + now rewrite String.eqb_refl.
    + inversion Hnd as [|x l Hnotin Hnd']; subst.
      destruct (String.eqb (id a) (id r)) eqn:E.
      * apply String.eqb_eq in E. exfalso. apply Hnotin.
        rewrite E. now apply in_map.
      * now apply IH.
Qed.

Lemma get_job_sql_update (wh : Job -> bool) (set : Job -> Job)
    (k : string) (s : Store) (ws : list WorkerRow) :
  (forall r, id (set r) = id r) ->
  get_job k (mkStore (fst (sql_update wh set (jobs s))) ws)
  = option_map (fun r => if wh r then set r else r) (get_job k s).
Proof.
  intros Hset. unfold get_job, sql_update. simpl.
  apply find_id_map. intros r. destruct (wh r); [apply Hset | reflexivity].
Qed.

Lemma get_job_update_by_id (set : Job -> Job) (j k : string) (s : Store)
    (ws : list WorkerRow) :
  (forall r, id (set r) = id r) ->
  get_job k (mkStore (fst (sql_update (fun r => String.eqb (id r) j) set
                                      (jobs s))) ws)
  = if String.eqb k j then option_map set (get_job k s) else get_job k s.
Proof.
  intros Hset. rewrite get_job_sql_update by exact Hset.
  destruct (get_job k s) as [r|] eqn:E; simpl.
  - apply get_job_In in E. destruct E as [_ <-].
    destruct (String.eqb (id r) j); reflexivity.
  - destruct (String.eqb k j); reflexivity.
Qed.

Lemma rowcount_pos (wh : Job -> bool) (set : Job -> Job) (rows : list Job)
    (r : Job) :
  In r rows -> wh r = true ->
  (0 <? snd (sql_update wh set rows))%nat = true.
Proof.
  intros Hin Hwh. unfold sql_update. simpl.
  assert (H : In r (filter wh rows)) by (apply filter_In; auto).
  destruct (filter wh rows); [destruct H | reflexivity].
Qed.

Lemma sql_update_ids (wh : Job -> bool) (set : Job -> Job) (rows : list Job) :
  (forall r, id (set r) = id r) ->
  map id (fst (sql_update wh set rows)) = map id rows.
Proof.
  intros Hset. unfold sql_update. simpl. rewrite map_map.
  apply map_ext. intros r. destruct (wh r); [apply Hset | reflexivity].
Qed.

(** ** [ORDER BY created_at ASC LIMIT 1] *)

Lemma insert_by_created_at_In (x r : Job) (rows : list Job) :
  In x (insert_by_created_at r rows) <-> x = r \/ In x rows.
Proof.
  induction rows as [|a rows IH]; simpl.
  - intuition.
  - destruct (created_at r <=? created_at a); simpl; rewrite ?IH; intuition.
Qed.

Lemma order_by_created_at_asc_In (x : Job) (rows : list Job) :
  In x (order_by_created_at_asc rows) <-> In x rows.
Proof.
  induction rows as [|a rows IH]; simpl; [reflexivity|].
  rewrite insert_by_created_at_In, IH. intuition.
Qed.

Lemma order_by_created_at_asc_hd (rows : list Job) (row : Job) :
  hd_error (order_by_created_at_asc rows) = Some row ->
  In row rows /\ forall r, In r rows -> created_at row <= created_at r.
Proof.
  revert row. induction rows as [|a rows IH]; simpl; intros row H.
  - discriminate.
  - destruct (order_by_created_at_asc rows) as [|h t] eqn:E; simpl in H.
    + injection H as <-. split; [now left|].
      intros r [<- | Hin]; [lia|].
      apply order_by_created_at_asc_In in Hin. rewrite E in Hin. destruct Hin.
    + destruct (IH h eq_refl) as [Hh Hmin].
      destruct (created_at a <=? created_at h) eqn:Hle; simpl in H;
        injection H as <-.
      * apply Z.leb_le in Hle. split; [now left|].
        intros r [<- | Hin]; [lia|]. specialize (Hmin r Hin). lia.
      * apply Z.leb_gt in Hle. split; [now right|].
        intros r [<- | Hin]; [lia | auto].
Qed.

Lemma order_by_created_at_asc_none (rows : list Job) :
  hd_error (order_by_created_at_asc rows) = None -> rows = [].
Proof.
  destruct rows as [|a rows]; [reflexivity|]. simpl.
  intros H. exfalso.
  assert (Hin : In a (insert_by_created_at a (order_by_created_at_asc rows)))
    by (apply insert_by_created_at_In; now left).
  destruct (insert_by_created_at a (order_by_created_at_asc rows));
    [destruct Hin | discriminate].
Qed.

(** ** The lease: [Storage.get_next_pending_job] *)

Lemma get_next_pending_job_none (w : string) (now : Z) (s : Store) :
  hd_error (order_by_created_at_asc (filter (lease_select now) (jobs s))) = None ->
  get_next_pending_job w now s = (s, None) /\
  forall r, In r (jobs s) -> ~ eligible now r.
Proof.
  intros H. split.
  - unfold get_next_pending_job. now rewrite H.
  - apply order_by_created_at_asc_none in H.
    intros r Hin He. apply lease_select_spec in He.
    assert (Hf : In r (filter (lease_select now) (jobs s)))
      by (apply filter_In; auto).
    rewrite H in Hf. destruct Hf.
Qed.

Lemma get_next_pending_job_some (w : string) (now : Z) (s : Store) (row : Job) :
  hd_error (order_by_created_at_asc (filter (lease_select now) (jobs s)))
  = Some row ->
  let wh := fun r => (String.eqb (id r) (id row) && unowned r)%bool in
  get_next_pending_job w now s
  = (mkStore (fst (sql_update wh (lease_set w now) (jobs s))) (workers s),
     if (0 <? snd (sql_update wh (lease_set w now) (jobs s)))%nat
     then Some (lease_dict w row) else None).
Proof.
  intros H. unfold get_next_pending_job. now rewrite H.
Qed.

Lemma get_next_pending_job_selected (w : string) (now : Z) (s : Store)
    (row : Job) :
  hd_error (order_by_created_at_asc (filter (lease_select now) (jobs s)))
  = Some row ->
  In row (jobs s) /\ eligible now row /\
  (forall r, In r (jobs s) -> eligible now r ->
             created_at row <= created_at r) /\
  snd (get_next_pending_job w now s) = Some (lease_dict w row) /\
  (forall k,
      get_job k (fst (get_next_pending_job w now s))
      = option_map
          (fun r => if (String.eqb (id r) (id row) && unowned r)%bool
                    then lease_set w now r else r)
          (get_job k s)).
Proof.
  intros H. pose proof (get_next_pending_job_some w now s row H) as Heq.
  cbv zeta in Heq. rewrite Heq. clear Heq.
  apply order_by_created_at_asc_hd in H. destruct H as [Hin Hmin].
  apply filter_In in Hin. destruct Hin as [Hin Hsel].
  pose proof Hsel as Hel. apply lease_select_spec in Hel.
  split; [exact Hin|]. split; [exact Hel|]. split; [|split].
  - intros r Hr He. apply Hmin. apply filter_In. split; [exact Hr|].
    now apply lease_select_spec.
  - cbn [snd].
    erewrite rowcount_pos; [reflexivity | exact Hin |].
    rewrite String.eqb_refl. simpl.
    unfold lease_select in Hsel. apply andb_true_iff in Hsel. apply Hsel.
  - intros k. cbn [fst]. now apply get_job_sql_update.
Qed.

(** C1: the lease selects an oldest row (by [created_at]) among the rows
    that are pending, or failed with [next_retry_at <= now], and unowned;
    it turns that row, and no other, into a processing row owned by the
    caller and returns it; without such a row it returns [None] and
    leaves the store as it is. *)
Theorem get_next_pending_job_oldest_eligible (w : string) (now : Z)
    (s : Store) (Hpk : primary_key (jobs s)) :
  ((forall r, In r (jobs s) -> ~ eligible now r) ->
   get_next_pending_job w now s = (s, None)) /\
  ((exists r, In r (jobs s) /\ eligible now r) ->
   exists row,
     In row (jobs s) /\ eligible now row /\
     (forall r, In r (jobs s) -> eligible now r ->
                created_at row <= created_at r) /\
     (exists job,
         snd (get_next_pending_job w now s) = Some job /\
         id job = id row /\ state job = PROCESSING /\
         worker_id job = Some w) /\
     (exists row',
         get_job (id row) (fst (get_next_pending_job w now s)) = Some row' /\
         state row' = PROCESSING /\ worker_id row' = Some w) /\
     (forall k, k <> id row ->
                get_job k (fst (get_next_pending_job w now s)) = get_job k s)).
Proof.
  destruct (hd_error (order_by_created_at_asc
                        (filter (lease_select now) (jobs s)))) as [row|] eqn:E.
  - destruct (get_next_pending_job_selected w now s row E)
      as (Hin & Hel & Hmin & Hret & Hget).
    split.
    + intros Hno. exfalso. exact (Hno row Hin Hel).
    + intros _. exists row.
      split; [exact Hin|]. split; [exact Hel|]. split; [exact Hmin|].
      split; [|split].
      * exists (lease_dict w row). now rewrite Hret.
      * exists (lease_set w now row). rewrite Hget.
        rewrite (In_get_job s row Hpk Hin). simpl.
        rewrite String.eqb_refl.
        destruct Hel as [_ Hun]. apply unowned_spec in Hun.
        rewrite Hun. auto.
      * intros k Hk. rewrite Hget.
        destruct (get_job k s) as [r|] eqn:Er; [|reflexivity].
        apply get_job_In in Er. destruct Er as [_ <-].
        apply String.eqb_neq in Hk. simpl. now rewrite Hk.
  - destruct (get_next_pending_job_none w now s E) as [Hret Hno].
    split.
    + intros _. exact Hret.
    + intros (r & Hin & Hel). exfalso. exact (Hno r Hin Hel).
Qed.

Lemma get_next_pending_job_oldest_eligible_witness :
  primary_key (jobs two_pending) /\
  exists row,
    In row (jobs two_pending) /\ eligible 10 row /\
    (forall r, In r (jobs two_pending) -> eligible 10 r ->
               created_at row <= created_at r) /\
    (exists job,
        snd (get_next_pending_job "w1" 10 two_pending) = Some job /\
        id job = id row /\ state job = PROCESSING /\
        worker_id job = Some "w1"%string) /\
    (exists row',
        get_job (id row) (fst (get_next_pending_job "w1" 10 two_pending))
        = Some row' /\
        state row' = PROCESSING /\ worker_id row' = Some "w1"%string) /\
    (forall k, k <> id row ->
               get_job k (fst (get_next_pending_job "w1" 10 two_pending))
               = get_job k two_pending).
Proof.
  assert (Hpk : primary_key (jobs two_pending)).
  { unfold primary_key. simpl.
    repeat constructor; simpl; intuition discriminate. }
  split; [exact Hpk|].
  apply (proj2 (get_next_pending_job_oldest_eligible "w1" 10 two_pending Hpk)).
  eexists. split; [left; reflexivity|].
  split; [left; reflexivity | left; reflexivity].
Defined.

(** ** Single-row updates by id *)

Lemma update_job_state_set_id st err w now r :
  id (update_job_state_set st err w now r) = id r.
Proof. now destruct st. Qed.

Lemma get_job_update_job_state j st err w now k s :
  get_job k (fst (update_job_state j st err w now s))
  = if String.eqb k j
    then option_map (update_job_state_set st err w now) (get_job k s)
    else get_job k s.
Proof.
  exact (get_job_update_by_id (update_job_state_set st err w now) j k s
           (workers s) (update_job_state_set_id st err w now)).
Qed.

Lemma get_job_increment_job_attempts j nra err now k s :
  get_job k (fst (increment_job_attempts j nra err now s))
  = if String.eqb k j
    then option_map (increment_job_attempts_set nra err now) (get_job k s)
    else get_job k s.
Proof.
  exact (get_job_update_by_id (increment_job_attempts_set nra err now) j k s
           (workers s) (fun r => eq_refl)).
Qed.

Lemma get_job_move_to_dlq j err now k s :
  get_job k (fst (move_to_dlq j err now s))
  = if String.eqb k j
    then option_map (move_to_dlq_set err now) (get_job k s)
    else get_job k s.
Proof.
  exact (get_job_update_by_id (move_to_dlq_set err now) j k s
           (workers s) (fun r => eq_refl)).
Qed.

Lemma update_job_state_found j st err w now s r :
  get_job j s = Some r -> snd (update_job_state j st err w now s) = true.
Proof.
  intros H. apply get_job_In in H. destruct H as [Hin Hid].
  unfold update_job_state.
  exact (rowcount_pos (fun x => String.eqb (id x) j)
           (update_job_state_set st err w now) (jobs s) r Hin
           (proj2 (String.eqb_eq _ _) Hid)).
Qed.

Lemma update_job_state_missing j st err w now s :
  get_job j s = None -> snd (update_job_state j st err w now s) = false.
Proof.
  unfold get_job, update_job_state, sql_update. simpl.
  induction (jobs s) as [|a rows IH]; simpl; [reflexivity|].
  destruct (String.eqb (id a) j); [discriminate | exact IH].
Qed.

(** ** Failure handling: [Queue.handle_job_failure] *)

Lemma handle_job_failure_dlq cfg job_id err w now_q now s job :
  get_job job_id s = Some job ->
  decides_dlq job = true ->
  handle_job_failure cfg job_id err w now_q now s
  = (fst (move_to_dlq job_id (Some err) now s),
     Returned (FailureDlq (attempts job + 1))).
Proof.
  intros Hjob Hd. unfold handle_job_failure. rewrite Hjob.
  unfold decides_dlq in Hd. now rewrite Hd.
Qed.

Lemma handle_job_failure_retry cfg job_id err w now_q now s job nra :
  get_job job_id s = Some job ->
  decides_dlq job = false ->
  retry_time now_q (calculate_backoff_delay cfg (attempts job + 1))
  = Some nra ->
  handle_job_failure cfg job_id err w now_q now s
  = (fst (increment_job_attempts job_id nra (Some err) now s),
     Returned (FailureRetry (calculate_backoff_delay cfg (attempts job + 1))
                            (attempts job + 1) (max_retries job) nra)).
Proof.
  intros Hjob Hd Ht. unfold handle_job_failure. rewrite Hjob.
  unfold decides_dlq in Hd. rewrite Hd. cbv zeta. now rewrite Ht.
Qed.

Lemma handle_job_failure_raise cfg job_id err w now_q now s job :
  get_job job_id s = Some job ->
  decides_dlq job = false ->
  retry_time now_q (calculate_backoff_delay cfg (attempts job + 1)) = None ->
  handle_job_failure cfg job_id err w now_q now s = (s, Raised OverflowError).
Proof.
  intros Hjob Hd Ht. unfold handle_job_failure. rewrite Hjob.
  unfold decides_dlq in Hd. rewrite Hd. cbv zeta. now rewrite Ht.
Qed.

(** The retry time, for a clock that shows a [datetime]: the sum when it
    is a [datetime], an [OverflowError] otherwise. *)
Lemma retry_time_spec (now_q delay : Z) :
  0 <= now_q <= 315537897599999999 ->
  (0 <= now_q + 1000000 * delay <= 315537897599999999 ->
   retry_time now_q delay = Some (now_q + 1000000 * delay)) /\
  (~ (0 <= now_q + 1000000 * delay <= 315537897599999999) ->
   retry_time now_q delay = None).
Proof.
  intros Hnow. unfold retry_time, timedelta_seconds, datetime_add, datetime_max.
  split; intros H.
  - assert (Hlo : -999999999 <= delay / 86400)
      by (apply Z.div_le_lower_bound; lia).
    assert (Hhi : delay / 86400 <= 999999999)
      by (apply Z.div_le_upper_bound; lia).
    apply Z.leb_le in Hlo, Hhi. rewrite Hlo, Hhi. cbn [andb].
    destruct H as [H1 H2]. apply Z.leb_le in H1, H2. now rewrite H1, H2.
  - destruct ((-999999999 <=? delay / 86400)
              && (delay / 86400 <=? 999999999))%bool; [|reflexivity].
    destruct (0 <=? now_q + 1000000 * delay) eqn:E1; [|reflexivity].
    destruct (now_q + 1000000 * delay <=? 315537897599999999) eqn:E2;
      [|reflexivity].
    apply Z.leb_le in E1, E2. exfalso. apply H. lia.
Qed.

Lemma decides_dlq_true (job : Job) :
  decides_dlq job = true <-> max_retries job <= attempts job + 1.
Proof. unfold decides_dlq. apply Z.geb_le. Qed.

Lemma decides_dlq_false (job : Job) :
  decides_dlq job = false <-> attempts job + 1 < max_retries job.
Proof.
  unfold decides_dlq. rewrite Z.geb_leb. apply Z.leb_gt.
Qed.

(** C2, as the code has it: on a failure of a job with [a] attempts and
    budget [m], with [attempts_after = a + 1]: when [attempts_after >= m]
    the job moves to the DLQ and the action is "dlq"; otherwise, when
    [now + min(backoff_base ** attempts_after, backoff_max_delay)]
    seconds is still a [datetime], the job becomes failed with
    [attempts = attempts_after] and that instant as [next_retry_at], and
    the action is "retry"; when that instant is past [datetime.max] the
    sum raises [OverflowError] and nothing is written. *)
Theorem handle_job_failure_policy (cfg : Config) (job_id err w : string)
    (now_q now : Z) (s : Store) (job : Job)
    (Hjob : get_job job_id s = Some job)
    (Hattempts : 0 <= attempts job)
    (Hclock : 0 <= now_q <= 315537897599999999) :
  let attempts_after := attempts job + 1 in
  let delay :=
    Z.min (backoff_base cfg ^ attempts_after) (backoff_max_delay cfg) in
  let s' := fst (handle_job_failure cfg job_id err w now_q now s) in
  let res := snd (handle_job_failure cfg job_id err w now_q now s) in
  (attempts_after >= max_retries job ->
   (exists d, res = Returned d /\ action d = "dlq"%string) /\
   exists job', get_job job_id s' = Some job' /\ state job' = DLQ) /\
  (attempts_after < max_retries job ->
   0 <= now_q + 1000000 * delay <= 315537897599999999 ->
   (exists d, res = Returned d /\ action d = "retry"%string) /\
   exists job',
     get_job job_id s' = Some job' /\ state job' = FAILED /\
     attempts job' = attempts_after /\
     next_retry_at job' = Some (now_q + 1000000 * delay)) /\
  (attempts_after < max_retries job ->
   ~ (0 <= now_q + 1000000 * delay <= 315537897599999999) ->
   res = Raised OverflowError /\ s' = s).
Proof.
  cbv zeta.
  destruct (retry_time_spec now_q
              (Z.min (backoff_base cfg ^ (attempts job + 1))
                     (backoff_max_delay cfg)) Hclock) as [Hin Hout].
  split; [|split].
  - intros Hcmp.
    rewrite (handle_job_failure_dlq cfg job_id err w now_q now s job Hjob)
      by (apply decides_dlq_true; lia).
    cbn [fst snd]. split; [eexists; split; reflexivity|].
    rewrite get_job_move_to_dlq, String.eqb_refl, Hjob. simpl.
    eexists. split; [reflexivity | reflexivity].
  - intros Hcmp Hrange.
    rewrite (handle_job_failure_retry cfg job_id err w now_q now s job _ Hjob)
      by (try (apply decides_dlq_false; lia); exact (Hin Hrange)).
    cbn [fst snd]. split; [eexists; split; reflexivity|].
    rewrite get_job_increment_job_attempts, String.eqb_refl, Hjob. simpl.
    eexists. split; [reflexivity|]. repeat split.
  - intros Hcmp Hrange.
    rewrite (handle_job_failure_raise cfg job_id err w now_q now s job Hjob)
      by (try (apply decides_dlq_false; lia); exact (Hout Hrange)).
    split; reflexivity.
Qed.

Lemma handle_job_failure_policy_witness :
  get_job "a" failed_once_leased <> None /\
  (exists d,
      snd (handle_job_failure DEFAULTS "a" "Exit code 1: " "w2"
                              3500000 3500001 failed_once_leased)
      = Returned d /\
      action d = "retry"%string) /\
  exists job',
    get_job "a" (fst (handle_job_failure DEFAULTS "a" "Exit code 1: " "w2"
                                         3500000 3500001 failed_once_leased))
    = Some job' /\
    state job' = FAILED /\ attempts job' = 2 /\
    next_retry_at job' = Some 7500000.
Proof.
  split; [discriminate|].
  refine (proj1 (proj2 (handle_job_failure_policy DEFAULTS "a"
                          "Exit code 1: " "w2" 3500000 3500001
                          failed_once_leased _ eq_refl _ _)) _ _).
  - simpl. lia.
  - lia.
  - simpl. lia.
  - simpl. lia.
Defined.

(** C2 fails as stated.  Under a configuration that [Config.set] accepts
    (base and cap 10 ** 12), the first failure of a job of budget three,
    reported in November 2026, is to be retried: but the retry time is
    past [datetime.max], the sum raises [OverflowError], and the job is
    still processing, with no attempt counted and no [next_retry_at]. *)
Lemma handle_job_failure_raises_past_datetime_max :
  exists job job',
    get_job "a" s1_leased = Some job /\
    attempts job + 1 < max_retries job /\
    snd (handle_job_failure cfg_far "a" "Exit code 1: " "w1"
                            nov_2026 nov_2026 s1_leased)
    = Raised OverflowError /\
    get_job "a" (fst (handle_job_failure cfg_far "a" "Exit code 1: " "w1"
                                         nov_2026 nov_2026 s1_leased))
    = Some job' /\
    state job' = PROCESSING /\ state job' <> FAILED /\
    attempts job' = 0 /\ next_retry_at job' = None.
Proof.
  do 2 eexists. split; [reflexivity|]. split; [simpl; lia|].
  split; [reflexivity|]. split; [reflexivity|].
  repeat split. discriminate.
Qed.

(** ** Completion: [Queue.handle_job_success] *)

(** C3, as the code has it: after a completion the job is completed, with
    [completed_at = now] and [error_message] cleared; the [UPDATE] of the
    completed branch does not write [worker_id], so the row keeps the
    owner it had. *)
Theorem handle_job_success_keeps_worker_id (job_id w : string) (now : Z)
    (s : Store) (job : Job) (Hjob : get_job job_id s = Some job) :
  snd (handle_job_success job_id w now s) = true /\
  exists job',
    get_job job_id (fst (handle_job_success job_id w now s)) = Some job' /\
    state job' = COMPLETED /\
    completed_at job' = Some now /\
    error_message job' = None /\
    worker_id job' = worker_id job.
Proof.
  unfold handle_job_success. split.
  - now apply update_job_state_found with (r := job).
  - rewrite get_job_update_job_state, String.eqb_refl, Hjob. simpl.
    eexists. split; [reflexivity|]. repeat split.
Qed.

Lemma handle_job_success_keeps_worker_id_witness :
  get_job "a" s1_leased <> None /\
  snd (handle_job_success "a" "w1" 20 s1_leased) = true /\
  exists job',
    get_job "a" (fst (handle_job_success "a" "w1" 20 s1_leased)) = Some job' /\
    state job' = COMPLETED /\
    completed_at job' = Some 20 /\
    error_message job' = None /\
    worker_id job' = Some "w1"%string.
Proof.
  split; [discriminate|].
  exact (handle_job_success_keeps_worker_id "a" "w1" 20 s1_leased _ eq_refl).
Defined.

(** C3 fails as stated: the job of scenario S1, leased by "w1" and then
    completed, is a completed row whose [worker_id] is still "w1". *)
Lemma completed_job_carries_worker_id :
  exists job,
    get_job "a" (fst (handle_job_success "a" "w1" 20 s1_leased)) = Some job /\
    state job = COMPLETED /\
    worker_id job = Some "w1"%string /\
    unowned job = false.
Proof. eexists. repeat split. Qed.

(** ** Manual retry: [Queue.retry_job] *)

Lemma retry_job_permitted (job_id : string) (now : Z) (s : Store) (job : Job) :
  get_job job_id s = Some job ->
  state job = FAILED \/ state job = DLQ ->
  retry_job job_id now s
  = (fst (update_job_state job_id PENDING None None now s),
     mkResult true (MovedBackToPending job_id)).
Proof.
  intros Hjob Hst. unfold retry_job. rewrite Hjob.
  pose proof (update_job_state_found job_id PENDING None None now s job Hjob)
    as Hok.
  destruct (update_job_state job_id PENDING None None now s) as [s' ok].
  simpl in Hok. subst ok.
  destruct Hst as [-> | ->]; reflexivity.
Qed.

(** C5, as the code has it: a manual retry of a failed or dlq job succeeds
    and leaves the job pending with [worker_id] empty and [error_message]
    cleared; [next_retry_at] is not written and keeps its value. *)
Theorem retry_job_resets (job_id : string) (now : Z) (s : Store) (job : Job)
    (Hjob : get_job job_id s = Some job)
    (Hstate : state job = FAILED \/ state job = DLQ) :
  success (snd (retry_job job_id now s)) = true /\
  exists job',
    get_job job_id (fst (retry_job job_id now s)) = Some job' /\
    state job' = PENDING /\
    worker_id job' = Some ""%string /\
    error_message job' = None /\
    next_retry_at job' = next_retry_at job.
Proof.
  rewrite (retry_job_permitted job_id now s job Hjob Hstate). cbn [fst snd].
  split; [reflexivity|].
  rewrite get_job_update_job_state, String.eqb_refl, Hjob. simpl.
  eexists. split; [reflexivity|]. repeat split.
Qed.

Lemma retry_job_resets_witness :
  get_job "a" failed_once <> None /\
  success (snd (retry_job "a" 30 failed_once)) = true /\
  exists job',
    get_job "a" (fst (retry_job "a" 30 failed_once)) = Some job' /\
    state job' = PENDING /\
    worker_id job' = Some ""%string /\
    error_message job' = None /\
    next_retry_at job' = Some 2000020.
Proof.
  split; [discriminate|].
  exact (retry_job_resets "a" 30 failed_once _ eq_refl (or_introl eq_refl)).
Defined.

(** C5 fails as stated: the failed job of [failed_once] has
    [next_retry_at] set, and after the manual retry it still has. *)
Lemma retry_job_leaves_next_retry_at :
  exists job job',
    get_job "a" failed_once = Some job /\ state job = FAILED /\
    get_job "a" (fst (retry_job "a" 30 failed_once)) = Some job' /\
    state job' = PENDING /\
    next_retry_at job' = Some 2000020 /\ next_retry_at job' <> None.
Proof. do 2 eexists. repeat split. discriminate. Qed.

(** C9: a manual retry of an unknown id, or of a job that is neither
    failed nor in the DLQ, returns a negative result and leaves the store,
    hence every job record, as it was. *)
Theorem retry_job_refuses (job_id : string) (now : Z) (s : Store)
    (Hrefused :
       get_job job_id s = None \/
       exists job, get_job job_id s = Some job /\
                   state job <> FAILED /\ state job <> DLQ) :
  fst (retry_job job_id now s) = s /\
  success (snd (retry_job job_id now s)) = false.
Proof.
  unfold retry_job. destruct Hrefused as [-> | (job & -> & Hf & Hd)].
  - split; reflexivity.
  - destruct (state job); try (split; reflexivity); congruence.
Qed.

Lemma retry_job_refuses_witness :
  (fst (retry_job "a" 30 s1_completed) = s1_completed /\
   success (snd (retry_job "a" 30 s1_completed)) = false) /\
  (fst (retry_job "zz" 30 s1_completed) = s1_completed /\
   success (snd (retry_job "zz" 30 s1_completed)) = false).
Proof.
  split.
  - apply retry_job_refuses. right. eexists.
    split; [reflexivity|]. split; discriminate.
  - apply retry_job_refuses. left. reflexivity.
Defined.

(** C10: a manual retry of a failed or dlq job leaves [attempts] and
    [max_retries] as they were; a job whose last failure was decided DLQ
    therefore goes back to the DLQ at its next failure. *)
Theorem retry_job_keeps_attempts (cfg : Config) (job_id : string) (now : Z)
    (s : Store) (job : Job)
    (Hjob : get_job job_id s = Some job)
    (Hstate : state job = FAILED \/ state job = DLQ) :
  exists job',
    get_job job_id (fst (retry_job job_id now s)) = Some job' /\
    state job' = PENDING /\
    attempts job' = attempts job /\
    max_retries job' = max_retries job /\
    (attempts job + 1 >= max_retries job ->
     forall err w now_q now',
       (exists d,
           snd (handle_job_failure cfg job_id err w now_q now'
                  (fst (retry_job job_id now s))) = Returned d /\
           action d = "dlq"%string) /\
       exists job'',
         get_job job_id
           (fst (handle_job_failure cfg job_id err w now_q now'
                   (fst (retry_job job_id now s)))) = Some job'' /\
         state job'' = DLQ /\ attempts job'' = attempts job).
Proof.
  rewrite (retry_job_permitted job_id now s job Hjob Hstate). cbn [fst].
  pose proof (get_job_update_job_state job_id PENDING None None now job_id s)
    as Hget.
  rewrite String.eqb_refl, Hjob in Hget. simpl in Hget.
  eexists. split; [exact Hget|]. repeat split.
  - rewrite (handle_job_failure_dlq _ _ _ _ _ _ _ _ Hget)
      by (apply decides_dlq_true; simpl; lia).
    eexists. split; reflexivity.
  - rewrite (handle_job_failure_dlq _ _ _ _ _ _ _ _ Hget)
      by (apply decides_dlq_true; simpl; lia).
    cbn [fst]. rewrite get_job_move_to_dlq, String.eqb_refl, Hget. simpl.
    eexists. split; [reflexivity|]. split; reflexivity.
Qed.

Lemma retry_job_keeps_attempts_witness :
  get_job "c" s6_dlq <> None /\
  exists job',
    get_job "c" (fst (retry_job "c" 30 s6_dlq)) = Some job' /\
    state job' = PENDING /\
    attempts job' = 0 /\
    max_retries job' = 1 /\
    (0 + 1 >= 1 ->
     forall err w now_q now',
       (exists d,
           snd (handle_job_failure DEFAULTS "c" err w now_q now'
                  (fst (retry_job "c" 30 s6_dlq))) = Returned d /\
           action d = "dlq"%string) /\
       exists job'',
         get_job "c"
           (fst (handle_job_failure DEFAULTS "c" err w now_q now'
                   (fst (retry_job "c" 30 s6_dlq)))) = Some job'' /\
         state job'' = DLQ /\ attempts job'' = 0).
Proof.
  split; [discriminate|].
  exact (retry_job_keeps_attempts DEFAULTS "c" 30 s6_dlq _ eq_refl
           (or_intror eq_refl)).
Defined.

(** ** [started_at] across leases *)

(** C6, as the code has it: the lease's [UPDATE] writes [started_at = now]
    on every lease, also when the row was leased before; only the returned
    dictionary still carries the previous [started_at]. *)
Theorem get_next_pending_job_sets_started_at (w : string) (now : Z)
    (s : Store) (job : Job)
    (Hpk : primary_key (jobs s))
    (Hleased : snd (get_next_pending_job w now s) = Some job) :
  exists row row',
    get_job (id job) s = Some row /\
    started_at job = started_at row /\
    get_job (id job) (fst (get_next_pending_job w now s)) = Some row' /\
    started_at row' = Some now.
Proof.
  destruct (hd_error (order_by_created_at_asc
                        (filter (lease_select now) (jobs s)))) as [row|] eqn:E.
  - destruct (get_next_pending_job_selected w now s row E)
      as (Hin & Hel & _ & Hret & Hget).
    rewrite Hret in Hleased. injection Hleased as <-.
    change (id (lease_dict w row)) with (id row).
    exists row, (lease_set w now row).
    rewrite Hget, (In_get_job s row Hpk Hin). simpl.
    rewrite String.eqb_refl.
    destruct Hel as [_ Hun]. apply unowned_spec in Hun. rewrite Hun.
    repeat split.
  - destruct (get_next_pending_job_none w now s E) as [Hret _].
    rewrite Hret in Hleased. discriminate.
Qed.

Lemma get_next_pending_job_sets_started_at_witness :
  primary_key (jobs failed_once) /\
  exists row row',
    get_job "a" failed_once = Some row /\
    Some 10 = started_at row /\
    get_job "a" (fst (get_next_pending_job "w2" 100000000 failed_once))
    = Some row' /\
    started_at row' = Some 100000000.
Proof.
  assert (Hpk : primary_key (jobs failed_once)).
  { unfold primary_key. simpl. repeat constructor. simpl. intuition. }
  split; [exact Hpk|].
  exact (get_next_pending_job_sets_started_at "w2" 100000000 failed_once _
           Hpk eq_refl).
Defined.

(** C6 fails as stated: the failed job of [failed_once] was first leased
    at time 10; leasing it again rewrites its [started_at]. *)
Lemma lease_overwrites_started_at :
  exists row row',
    get_job "a" failed_once = Some row /\
    state row = FAILED /\ started_at row = Some 10 /\
    get_job "a" (fst (get_next_pending_job "w2" 100000000 failed_once))
    = Some row' /\
    state row' = PROCESSING /\
    started_at row' = Some 100000000 /\
    started_at row' <> started_at row.
Proof. do 2 eexists. repeat split. discriminate. Qed.

(** ** Reclaim: [Storage.deregister_worker] *)

Lemma deregister_worker_where_spec (w : string) (r : Job) :
  deregister_worker_where w r = true
  <-> worker_id r = Some w /\ state r = PROCESSING.
Proof.
  unfold deregister_worker_where.
  now rewrite andb_true_iff, worker_id_is_spec, JobState_eqb_eq.
Qed.

Lemma deregister_worker_jobs (w : string) (s : Store) :
  jobs (fst (deregister_worker w s))
  = map (fun r => if deregister_worker_where w r
                  then deregister_worker_set r else r) (jobs s).
Proof. reflexivity. Qed.

(** C8, as the code has it: after the reclaim of [w] no row is both owned
    by [w] and processing; every processing row of [w] has become pending
    with an empty [worker_id]; every other row, a completed row of [w]
    among them, is as it was. *)
Theorem deregister_worker_releases (w : string) (s : Store) :
  (forall r', In r' (jobs (fst (deregister_worker w s))) ->
              ~ (worker_id r' = Some w /\ state r' = PROCESSING)) /\
  (forall i r,
      nth_error (jobs s) i = Some r ->
      exists r',
        nth_error (jobs (fst (deregister_worker w s))) i = Some r' /\
        (worker_id r = Some w /\ state r = PROCESSING ->
         r' = deregister_worker_set r /\
         state r' = PENDING /\ worker_id r' = Some ""%string) /\
        (~ (worker_id r = Some w /\ state r = PROCESSING) -> r' = r)).
Proof.
  rewrite deregister_worker_jobs. split.
  - intros r' Hin. apply in_map_iff in Hin. destruct Hin as (r & <- & _).
    destruct (deregister_worker_where w r) eqn:E.
    + simpl. intros [_ H]. discriminate.
    + intros H. apply deregister_worker_where_spec in H. congruence.
  - intros i r Hnth. rewrite nth_error_map, Hnth. simpl.
    eexists. split; [reflexivity|].
    destruct (deregister_worker_where w r) eqn:E.
    + apply deregister_worker_where_spec in E. split.
      * intros _. repeat split.
      * intros H. contradiction.
    + split.
      * intros H. apply deregister_worker_where_spec in H. congruence.
      * reflexivity.
Qed.

(** C8 fails as stated: the job of scenario S1 was leased and completed by
    "w1"; after the reclaim of "w1" that row still has [worker_id = "w1"]. *)
Lemma deregister_worker_leaves_completed_rows :
  exists r',
    In r' (jobs (fst (deregister_worker "w1" s1_completed))) /\
    state r' = COMPLETED /\
    worker_id r' = Some "w1"%string.
Proof. eexists. split; [left; reflexivity|]. split; reflexivity. Qed.

(** ** Scenario S2 *)

(** C4 on the code: the job of scenario S2 (budget 2, two failures) ends
    in the DLQ with [attempts = 1], for [move_to_dlq] does not count the
    failure that exhausts the budget. *)
Theorem s2_retry_to_dlq_attempts :
  exists job,
    get_job "b" (run cfg_s2 s2_ops empty_store) = Some job /\
    state job = DLQ /\
    max_retries job = 2 /\
    attempts job = 1.
Proof. eexists. repeat split. Qed.

(** ** Every operation, seen from one row *)

Lemma find_snoc (f : Job -> bool) (rows : list Job) (x : Job) :
  find f (rows ++ [x])
  = match find f rows with
    | Some y => Some y
    | None => if f x then Some x else None
    end.
Proof.
  induction rows as [|a rows IH]; simpl; [reflexivity|].
  destruct (f a); [reflexivity | exact IH].
Qed.

Lemma enqueue_cases (cfg : Config) (jd : JobData) (now : Z) (s : Store) :
  fst (enqueue cfg jd now s) = s \/
  exists job_id cmd,
    existsb (fun r => String.eqb (id r) job_id) (jobs s) = false /\
    fst (enqueue cfg jd now s)
    = mkStore
        (jobs s ++
         [mkJob job_id cmd PENDING 0
                match jd_max_retries jd with
                | Some m => m
                | None => cfg_max_retries cfg
                end
                now now None None None None None (jd_extra jd)])
        (workers s).
Proof.
  unfold enqueue.
  destruct (jd_id jd) as [j|]; [|now left].
  destruct (jd_command jd) as [c|]; [|now left].
  destruct (String.eqb j "" || String.eqb c "")%bool; [now left|].
  unfold enqueue_job.
  destruct (negb (sqlite_int _)); [now left|].
  destruct (existsb (fun r => String.eqb (id r) j) (jobs s)) eqn:E;
    [now left|].
  right. exists j, c. split; [exact E | reflexivity].
Qed.

Lemma get_job_enqueue (cfg : Config) (jd : JobData) (now : Z) (s : Store)
    (k : string) :
  match get_job k s with
  | Some r => get_job k (fst (enqueue cfg jd now s)) = Some r
  | None =>
      get_job k (fst (enqueue cfg jd now s)) = None \/
      exists r', get_job k (fst (enqueue cfg jd now s)) = Some r' /\
                 fresh_row cfg (OpEnqueue jd now) r'
  end.
Proof.
  destruct (enqueue_cases cfg jd now s) as [-> | (j & c & _ & ->)].
  - destruct (get_job k s); auto.
  - unfold get_job. cbn [jobs]. rewrite find_snoc.
    destruct (find (fun r => String.eqb (id r) k) (jobs s));
      [reflexivity|].
    cbn [id]. destruct (String.eqb j k); [right | now left].
    eexists. split; [reflexivity|]. exists jd, now. repeat split.
Qed.

Lemma get_job_lease (w : string) (now : Z) (s : Store) (k : string) :
  match get_job k s with
  | Some r =>
      exists r',
        get_job k (fst (get_next_pending_job w now s)) = Some r' /\
        (r' = r \/ (unowned r = true /\ r' = lease_set w now r))
  | None => get_job k (fst (get_next_pending_job w now s)) = None
  end.
Proof.
  destruct (hd_error (order_by_created_at_asc
                        (filter (lease_select now) (jobs s)))) as [row|] eqn:E.
  - destruct (get_next_pending_job_selected w now s row E)
      as (_ & _ & _ & _ & Hget).
    rewrite Hget. destruct (get_job k s) as [r|]; simpl; [|reflexivity].
    eexists. split; [reflexivity|].
    destruct (String.eqb (id r) (id row)); simpl; [|now left].
    destruct (unowned r); [now right | now left].
  - destruct (get_next_pending_job_none w now s E) as [-> _]. simpl.
    destruct (get_job k s); eauto.
Qed.

Ltac row_kept :=
  match goal with
  | |- match get_job ?k ?s with _ => _ end =>
      destruct (get_job k s);
      [ eexists; split; [reflexivity | apply rs_keep; intros; discriminate]
      | left; reflexivity ]
  end.

Lemma OpFail_other (j k err w : string) (now_q now : Z) :
  String.eqb k j = false ->
  forall err' w' now_q' now',
    OpFail j err w now_q now <> OpFail k err' w' now_q' now'.
Proof.
  intros E err' w' now_q' now' H. injection H as -> _ _ _ _.
  rewrite String.eqb_refl in E. discriminate.
Qed.

Lemma step_get_job (cfg : Config) (s : Store) (op : Op) (k : string) :
  match get_job k s with
  | Some r =>
      exists r', get_job k (step cfg s op) = Some r' /\ row_step cfg k op r r'
  | None =>
      get_job k (step cfg s op) = None \/
      exists r', get_job k (step cfg s op) = Some r' /\ fresh_row cfg op r'
  end.
Proof.
  destruct op as [jd now | w now | j w now | j err w nq now | j now];
    cbn [step].
  - pose proof (get_job_enqueue cfg jd now s k) as H.
    destruct (get_job k s) as [r|]; [|exact H].
    exists r. split; [exact H|]. apply rs_keep. intros. discriminate.
  - pose proof (get_job_lease w now s k) as H.
    destruct (get_job k s) as [r|]; [|now left].
    destruct H as (r' & Hr' & [-> | [U ->]]); eexists; (split; [exact Hr'|]).
    + apply rs_keep. intros. discriminate.
    + now apply rs_lease.
  - unfold handle_job_success. rewrite get_job_update_job_state.
    destruct (String.eqb k j) eqn:E; [|row_kept].
    apply String.eqb_eq in E. subst j.
    destruct (get_job k s); simpl; [|now left].
    eexists. split; [reflexivity | apply rs_complete].
  - destruct (get_job j s) as [job|] eqn:Ej.
    + destruct (decides_dlq job) eqn:D.
      * rewrite (handle_job_failure_dlq cfg j err w nq now s job Ej D).
        cbn [fst]. rewrite get_job_move_to_dlq.
        destruct (String.eqb k j) eqn:E.
        -- apply String.eqb_eq in E. subst j. rewrite Ej. simpl.
           eexists. split; [reflexivity | now apply rs_dlq].
        -- destruct (get_job k s); [|now left].
           eexists. split; [reflexivity|].
           apply rs_keep. now apply OpFail_other.
      * destruct (retry_time nq (calculate_backoff_delay cfg (attempts job + 1)))
          as [nra|] eqn:T.
        -- rewrite (handle_job_failure_retry cfg j err w nq now s job nra
                      Ej D T).
           cbn [fst]. rewrite get_job_increment_job_attempts.
           destruct (String.eqb k j) eqn:E.
           ++ apply String.eqb_eq in E. subst j. rewrite Ej. simpl.
              eexists. split; [reflexivity | now apply rs_fail].
           ++ destruct (get_job k s); [|now left].
              eexists. split; [reflexivity|].
              apply rs_keep. now apply OpFail_other.
        -- rewrite (handle_job_failure_raise cfg j err w nq now s job Ej D T).
           cbn [fst].
           destruct (String.eqb k j) eqn:E.
           ++ apply String.eqb_eq in E. subst j. rewrite Ej.
              eexists. split; [reflexivity | now apply rs_raise].
           ++ destruct (get_job k s); [|now left].
              eexists. split; [reflexivity|].
              apply rs_keep. now apply OpFail_other.
    + unfold handle_job_failure. rewrite Ej. cbn [fst].
      destruct (get_job k s) as [r|] eqn:Ek; [|now left].
      exists r. split; [reflexivity|].
      apply rs_keep. apply OpFail_other.
      destruct (String.eqb k j) eqn:E; [|reflexivity].
      apply String.eqb_eq in E. congruence.
  - destruct (get_job j s) as [job|] eqn:Ej.
    + assert (Hperm : state job = FAILED \/ state job = DLQ ->
                      match get_job k s with
                      | Some r =>
                          exists r',
                            get_job k (fst (retry_job j now s)) = Some r' /\
                            row_step cfg k (OpRetry j now) r r'
                      | None =>
                          get_job k (fst (retry_job j now s)) = None \/
                          exists r',
                            get_job k (fst (retry_job j now s)) = Some r' /\
                            fresh_row cfg (OpRetry j now) r'
                      end).
      { intros Hst. rewrite (retry_job_permitted j now s job Ej Hst).
        cbn [fst]. rewrite get_job_update_job_state.
        destruct (String.eqb k j) eqn:E; [|row_kept].
        apply String.eqb_eq in E. subst j. rewrite Ej. simpl.
        eexists. split; [reflexivity | now apply rs_retry]. }
      destruct (state job) eqn:St;
        try (apply Hperm; auto; fail);
        unfold retry_job; rewrite Ej, St; cbn [fst]; row_kept.
    + unfold retry_job. rewrite Ej. cbn [fst]. row_kept.
Qed.

(** ** Invariants of the reachable stores *)

Lemma row_step_within_budget (cfg : Config) (k : string) (op : Op)
    (r r' : Job) :
  row_step cfg k op r r' -> within_budget r -> within_budget r'.
Proof.
  unfold within_budget.
  intros Hstep (Ha & Hm & Hlt & Hdlq).
  destruct Hstep as [op r _ | w now r _ | w now r | now r _
                     | err w nq now r D | err w nq now r nra D _
                     | err w nq now r _ _]; simpl.
  - auto.
  - repeat split; auto. discriminate.
  - repeat split; auto. discriminate.
  - repeat split; auto. discriminate.
  - apply decides_dlq_true in D. repeat split; auto.
  - apply decides_dlq_false in D. repeat split; try lia. discriminate.
  - auto.
Qed.

Lemma fresh_row_within_budget (cfg : Config) (op : Op) (r : Job) :
  enqueues_nonneg cfg op -> fresh_row cfg op r -> within_budget r.
Proof.
  intros Hnn (jd & now & -> & Hst & Ha & Hm). simpl in Hnn.
  unfold within_budget. rewrite Ha, Hm, Hst.
  repeat split; try lia; try discriminate.
  destruct (jd_max_retries jd); exact Hnn.
Qed.

Lemma step_within_budget (cfg : Config) (s : Store) (op : Op) :
  enqueues_nonneg cfg op ->
  (forall k r, get_job k s = Some r -> within_budget r) ->
  forall k r', get_job k (step cfg s op) = Some r' -> within_budget r'.
Proof.
  intros Hnn Hinv k r' Hget.
  pose proof (step_get_job cfg s op k) as H.
  destruct (get_job k s) as [r|] eqn:E.
  - destruct H as (r0 & Hr0 & Hstep).
    rewrite Hget in Hr0. injection Hr0 as <-.
    exact (row_step_within_budget cfg k op r r' Hstep (Hinv k r E)).
  - destruct H as [H | (r0 & Hr0 & Hfresh)]; [congruence|].
    rewrite Hget in Hr0. injection Hr0 as <-.
    exact (fresh_row_within_budget cfg op r' Hnn Hfresh).
Qed.

Lemma update_job_state_ids j st err w now s :
  map id (jobs (fst (update_job_state j st err w now s))) = map id (jobs s).
Proof.
  exact (sql_update_ids _ _ (jobs s) (update_job_state_set_id st err w now)).
Qed.

Lemma move_to_dlq_ids j err now s :
  map id (jobs (fst (move_to_dlq j err now s))) = map id (jobs s).
Proof.
  exact (sql_update_ids _ (move_to_dlq_set err now) (jobs s)
           (fun r => eq_refl)).
Qed.

Lemma increment_job_attempts_ids j nra err now s :
  map id (jobs (fst (increment_job_attempts j nra err now s)))
  = map id (jobs s).
Proof.
  exact (sql_update_ids _ (increment_job_attempts_set nra err now) (jobs s)
           (fun r => eq_refl)).
Qed.

Lemma step_primary_key (cfg : Config) (s : Store) (op : Op) :
  primary_key (jobs s) -> primary_key (jobs (step cfg s op)).
Proof.
  unfold primary_key. intros Hpk.
  destruct op as [jd now | w now | j w now | j err w nq now | j now];
    cbn [step].
  - destruct (enqueue_cases cfg jd now s) as [-> | (j & c & E & ->)];
      [exact Hpk|].
    cbn [jobs]. rewrite map_app. apply NoDup_app; [exact Hpk | |].
    + simpl. constructor; [intros [] | constructor].
    + intros a Ha [<- | []]. simpl in Ha.
      apply in_map_iff in Ha. destruct Ha as (r & Hid & Hin).
      assert (Hex : existsb (fun x => String.eqb (id x) (id r)) (jobs s) = true).
      { apply existsb_exists. exists r. split; [exact Hin|].
        apply String.eqb_refl. }
      rewrite <- Hid in E. congruence.
  - destruct (hd_error (order_by_created_at_asc
                          (filter (lease_select now) (jobs s))))
      as [row|] eqn:E.
    + pose proof (get_next_pending_job_some w now s row E) as Heq.
      cbv zeta in Heq. rewrite Heq. cbn [fst jobs].
      rewrite sql_update_ids; [exact Hpk | reflexivity].
    + destruct (get_next_pending_job_none w now s E) as [-> _]. exact Hpk.
  - unfold handle_job_success. now rewrite update_job_state_ids.
  - unfold handle_job_failure. destruct (get_job j s) as [job|]; [|exact Hpk].
    cbv zeta. destruct (attempts job + 1 >=? max_retries job).
    + cbn [fst]. now rewrite move_to_dlq_ids.
    + destruct (retry_time nq _); cbn [fst]; [|exact Hpk].
      now rewrite increment_job_attempts_ids.
  - destruct (get_job j s) as [job|] eqn:Ej.
    + destruct (state job) eqn:St;
        try (unfold retry_job; rewrite Ej, St; exact Hpk).
      * rewrite (retry_job_permitted j now s job Ej (or_introl St)).
        cbn [fst]. now rewrite update_job_state_ids.
      * rewrite (retry_job_permitted j now s job Ej (or_intror St)).
        cbn [fst]. now rewrite update_job_state_ids.
    + unfold retry_job. rewrite Ej. exact Hpk.
Qed.

Lemma run_invariant (cfg : Config) (ops : list Op) :
  forall s,
    Forall (enqueues_nonneg cfg) ops ->
    primary_key (jobs s) ->
    (forall k r, get_job k s = Some r -> within_budget r) ->
    primary_key (jobs (run cfg ops s)) /\
    (forall k r, get_job k (run cfg ops s) = Some r -> within_budget r).
Proof.
  induction ops as [|op ops IH]; intros s Hnn Hpk Hinv.
  - split; assumption.
  - inversion Hnn as [|x l Hop Hops]; subst. simpl. apply IH.
    + exact Hops.
    + now apply step_primary_key.
    + now apply step_within_budget.
Qed.

Lemma run_primary_key (cfg : Config) (ops : list Op) :
  forall s, primary_key (jobs s) -> primary_key (jobs (run cfg ops s)).
Proof.
  induction ops as [|op ops IH]; intros s Hpk; [exact Hpk|].
  simpl. apply IH. now apply step_primary_key.
Qed.

Lemma last_failure_of_dlq (cfg : Config) (k : string) (ops : list Op) :
  forall s acc,
    (forall r, get_job k s = Some r -> state r = DLQ ->
               acc = Some true /\ decides_dlq r = true) ->
    forall r, get_job k (run cfg ops s) = Some r -> state r = DLQ ->
              last_failure cfg k ops s acc = Some true.
Proof.
  induction ops as [|op ops IH]; intros s acc Hacc r Hget Hst.
  - exact (proj1 (Hacc r Hget Hst)).
  - simpl in Hget |- *. apply (IH _ _) with (r := r); try assumption.
    clear r Hget Hst. intros r' Hget' Hst'.
    pose proof (step_get_job cfg s op k) as H.
    destruct (get_job k s) as [r|] eqn:E.
    + destruct H as (r0 & Hr0 & Hstep).
      rewrite Hget' in Hr0. injection Hr0 as <-.
      inversion Hstep as [op' r1 Hne | w now r1 _ | w now r1 | now r1 _
                          | err w nq now r1 D | err w nq now r1 nra D T
                          | err w nq now r1 D T]; subst.
      * assert (Hsame :
                  match op with
                  | OpFail i _ _ _ _ =>
                      if String.eqb i k then Some (decides_dlq r') else acc
                  | _ => acc
                  end = acc).
        { destruct op as [ | | | i err w nq now | ]; try reflexivity.
          destruct (String.eqb i k) eqn:Ei; [|reflexivity].
          apply String.eqb_eq in Ei. subst i.
          exfalso. exact (Hne err w nq now eq_refl). }
        rewrite Hsame. exact (Hacc r' eq_refl Hst').
      * discriminate.
      * discriminate.
      * discriminate.
      * rewrite String.eqb_refl. split; [now rewrite D | exact D].
      * discriminate.
      * destruct (Hacc r' eq_refl Hst') as [_ Hd]. congruence.
    + destruct H as [H | (r0 & Hr0 & (jd & now & _ & Hp & _))].
      * congruence.
      * rewrite Hget' in Hr0. injection Hr0 as <-. congruence.
Qed.

(** ** The attempt budget over sequences of operations *)

(** C7, as the code has it: over every sequence of enqueue, lease,
    complete, fail and retry operations on a fresh store, in which no job
    is enqueued with a negative max_retries, every job has
    [attempts <= max_retries] after every operation; a job that is in the
    DLQ had its last failure decided with [attempts + 1 >= max_retries];
    and right after a failure the job is in the DLQ exactly when that
    failure had [attempts + 1 >= max_retries].  (A later manual retry or
    completion takes the job out of the DLQ again.) *)
Theorem attempt_budget (cfg : Config) (ops : list Op)
    (Hnonneg : Forall (enqueues_nonneg cfg) ops) :
  (forall job,
      In job (jobs (run cfg ops empty_store)) ->
      attempts job <= max_retries job) /\
  (forall job,
      In job (jobs (run cfg ops empty_store)) ->
      state job = DLQ ->
      last_failure cfg (id job) ops empty_store None = Some true) /\
  (forall job_id err w now_q now job job',
      get_job job_id (run cfg ops empty_store) = Some job ->
      get_job job_id
        (step cfg (run cfg ops empty_store) (OpFail job_id err w now_q now))
      = Some job' ->
      (state job' = DLQ <-> attempts job + 1 >= max_retries job)).
Proof.
  assert (Hpk0 : primary_key (jobs empty_store)) by constructor.
  destruct (run_invariant cfg ops empty_store Hnonneg Hpk0) as [Hpk Hinv].
  { intros k r H. discriminate. }
  split; [|split].
  - intros job Hin.
    destruct (Hinv _ _ (In_get_job _ job Hpk Hin)) as (Ha & Hm & Hlt & _).
    lia.
  - intros job Hin Hst.
    apply last_failure_of_dlq with (r := job).
    + intros r H. discriminate.
    + now apply In_get_job.
    + exact Hst.
  - intros job_id err w now_q now job job' Hjob Hjob'. cbn [step] in Hjob'.
    destruct (decides_dlq job) eqn:D.
    + rewrite (handle_job_failure_dlq cfg _ _ _ _ _ _ _ Hjob D) in Hjob'.
      cbn [fst] in Hjob'.
      rewrite get_job_move_to_dlq, String.eqb_refl, Hjob in Hjob'.
      injection Hjob' as <-. apply decides_dlq_true in D. simpl.
      split; [lia | reflexivity].
    + destruct (retry_time now_q
                  (calculate_backoff_delay cfg (attempts job + 1)))
        as [nra|] eqn:T.
      * rewrite (handle_job_failure_retry cfg _ _ _ _ _ _ _ _ Hjob D T)
          in Hjob'.
        cbn [fst] in Hjob'.
        rewrite get_job_increment_job_attempts, String.eqb_refl, Hjob
          in Hjob'.
        injection Hjob' as <-. apply decides_dlq_false in D. simpl.
        split; [discriminate | lia].
      * rewrite (handle_job_failure_raise cfg _ _ _ _ _ _ _ Hjob D T)
          in Hjob'.
        cbn [fst] in Hjob'. rewrite Hjob in Hjob'. injection Hjob' as <-.
        destruct (Hinv _ _ Hjob) as (_ & _ & _ & Hdlq).
        apply decides_dlq_false in D. split; [|lia].
        intros Hst. specialize (Hdlq Hst). lia.
Qed.

Lemma attempt_budget_witness :
  Forall (enqueues_nonneg cfg_s2) s2_ops /\
  (forall job,
      In job (jobs (run cfg_s2 s2_ops empty_store)) ->
      attempts job <= max_retries job) /\
  (forall job,
      In job (jobs (run cfg_s2 s2_ops empty_store)) ->
      state job = DLQ ->
      last_failure cfg_s2 (id job) s2_ops empty_store None = Some true) /\
  (forall job_id err w now_q now job job',
      get_job job_id (run cfg_s2 s2_ops empty_store) = Some job ->
      get_job job_id
        (step cfg_s2 (run cfg_s2 s2_ops empty_store)
              (OpFail job_id err w now_q now))
      = Some job' ->
      (state job' = DLQ <-> attempts job + 1 >= max_retries job)).
Proof.
  assert (H : Forall (enqueues_nonneg cfg_s2) s2_ops).
  { unfold s2_ops. repeat constructor. simpl. lia. }
  split; [exact H | exact (attempt_budget cfg_s2 s2_ops H)].
Defined.

(** C7 fails as stated.  In scenario S6 the job's only failure was
    decided DLQ, yet after the manual retry the job is pending, not in the
    DLQ; and a job enqueued with a negative max_retries has
    [attempts > max_retries] from the start. *)
Lemma attempt_budget_fails_as_stated :
  (last_failure DEFAULTS "c" s6_ops empty_store None = Some true /\
   exists job,
     get_job "c" (run DEFAULTS s6_ops empty_store) = Some job /\
     state job = PENDING /\ state job <> DLQ) /\
  (exists job,
      get_job "n" (run DEFAULTS [OpEnqueue job_neg 0] empty_store) = Some job /\
      max_retries job < attempts job).
Proof.
  split.
  - split; [reflexivity|]. eexists. repeat split. discriminate.
  - eexists. split; [reflexivity|]. simpl. lia.
Qed.

(** * Further properties of the code *)

(** ** [Queue.enqueue] *)

Lemma existsb_find_none (f : Job -> bool) (rows : list Job) :
  find f rows = None -> existsb f rows = false.
Proof.
  induction rows as [|a rows IH]; simpl; [reflexivity|].
  destruct (f a); [discriminate | exact IH].
Qed.

Lemma existsb_find_some (f : Job -> bool) (rows : list Job) (r : Job) :
  find f rows = Some r -> existsb f rows = true.
Proof.
  induction rows as [|a rows IH]; simpl; [discriminate|].
  destruct (f a); [reflexivity | exact IH].
Qed.

Lemma sqlite_int_spec (n : Z) :
  sqlite_int n = true
  <-> -9223372036854775808 <= n <= 9223372036854775807.
Proof.
  unfold sqlite_int. rewrite andb_true_iff, !Z.leb_le. reflexivity.
Qed.

Lemma sqlite_int_false (n : Z) :
  ~ (-9223372036854775808 <= n <= 9223372036854775807) ->
  sqlite_int n = false.
Proof.
  intros H. destruct (sqlite_int n) eqn:E; [|reflexivity].
  apply sqlite_int_spec in E. contradiction.
Qed.

(** Enqueue, then look up: a job with a non-empty id and command that is
    not yet stored, whose [max_retries] (the configured default when none
    is given) fits a 64-bit integer, is accepted, and is then found as a
    pending row with no attempts, no owner, that [max_retries] and
    [created_at = now]; no other id is affected.  With a [max_retries]
    outside 64 bits the call raises [OverflowError] and stores nothing. *)
Theorem enqueue_then_get_job (cfg : Config) (jd : JobData) (now : Z)
    (s : Store) (job_id cmd : string)
    (Hid : jd_id jd = Some job_id) (Hcmd : jd_command jd = Some cmd)
    (Hid_ne : job_id <> ""%string) (Hcmd_ne : cmd <> ""%string)
    (Hnew : get_job job_id s = None) :
  let maxr :=
    match jd_max_retries jd with
    | Some m => m
    | None => cfg_max_retries cfg
    end in
  (-9223372036854775808 <= maxr <= 9223372036854775807 ->
   snd (enqueue cfg jd now s) = Returned (mkResult true (Enqueued job_id)) /\
   get_job job_id (fst (enqueue cfg jd now s))
   = Some (mkJob job_id cmd PENDING 0 maxr now now None None None None None
                 (jd_extra jd)) /\
   (forall k, k <> job_id ->
              get_job k (fst (enqueue cfg jd now s)) = get_job k s)) /\
  (~ (-9223372036854775808 <= maxr <= 9223372036854775807) ->
   enqueue cfg jd now s = (s, Raised OverflowError)).
Proof.
  cbv zeta. unfold enqueue. rewrite Hid, Hcmd.
  apply String.eqb_neq in Hid_ne. apply String.eqb_neq in Hcmd_ne.
  rewrite Hid_ne, Hcmd_ne. cbn [orb]. unfold enqueue_job.
  split; intros Hrange.
  - apply sqlite_int_spec in Hrange. rewrite Hrange. cbn [negb].
    unfold get_job in Hnew.
    rewrite (existsb_find_none _ _ Hnew). cbn [fst snd].
    split; [reflexivity|]. unfold get_job. cbn [jobs]. split.
    + rewrite find_snoc, Hnew. cbn [id]. now rewrite String.eqb_refl.
    + intros k Hk. rewrite find_snoc.
      destruct (find (fun r => String.eqb (id r) k) (jobs s)); [reflexivity|].
      cbn [id]. apply not_eq_sym in Hk. apply String.eqb_neq in Hk.
      now rewrite Hk.
  - apply sqlite_int_false in Hrange. now rewrite Hrange.
Qed.

Lemma enqueue_then_get_job_witness :
  (exists job,
      get_job "y" (fst (enqueue DEFAULTS
                          (mkJobData (Some "y") (Some "true") (Some 5) None)%string
                          3 s1_completed)) = Some job /\
      state job = PENDING /\ attempts job = 0 /\ max_retries job = 5 /\
      created_at job = 3 /\ worker_id job = None) /\
  enqueue DEFAULTS
          (mkJobData (Some "y") (Some "true") (Some 9223372036854775808)
                     None)%string
          3 s1_completed
  = (s1_completed, Raised OverflowError).
Proof.
  split.
  - eexists. split.
    + refine (proj1 (proj2 (proj1 (enqueue_then_get_job DEFAULTS
                (mkJobData (Some "y") (Some "true") (Some 5) None)%string
                3 s1_completed "y" "true"
                eq_refl eq_refl _ _ eq_refl) _))); try discriminate.
      simpl. lia.
    + repeat split.
  - refine (proj2 (enqueue_then_get_job DEFAULTS
              (mkJobData (Some "y") (Some "true") (Some 9223372036854775808)
                         None)%string
              3 s1_completed "y" "true"
              eq_refl eq_refl _ _ eq_refl) _); try discriminate.
    simpl. lia.
Defined.

(** A duplicate id is a negative result, not an error: the store, and so
    the row already stored under that id, is left as it was.  ([sqlite3]
    binds the parameters before it runs the [INSERT]: with a
    [max_retries] outside 64 bits the call raises [OverflowError]
    instead, and the store is left as it was all the same.) *)
Theorem enqueue_duplicate (cfg : Config) (jd : JobData) (now : Z)
    (s : Store) (job_id cmd : string) (r : Job)
    (Hid : jd_id jd = Some job_id) (Hcmd : jd_command jd = Some cmd)
    (Hid_ne : job_id <> ""%string) (Hcmd_ne : cmd <> ""%string)
    (Hold : get_job job_id s = Some r) :
  let maxr :=
    match jd_max_retries jd with
    | Some m => m
    | None => cfg_max_retries cfg
    end in
  fst (enqueue cfg jd now s) = s /\
  (-9223372036854775808 <= maxr <= 9223372036854775807 ->
   enqueue cfg jd now s
   = (s, Returned (mkResult false (AlreadyExists job_id)))) /\
  (~ (-9223372036854775808 <= maxr <= 9223372036854775807) ->
   enqueue cfg jd now s = (s, Raised OverflowError)).
Proof.
  cbv zeta. unfold enqueue. rewrite Hid, Hcmd.
  apply String.eqb_neq in Hid_ne. apply String.eqb_neq in Hcmd_ne.
  rewrite Hid_ne, Hcmd_ne. cbn [orb].
  unfold enqueue_job. unfold get_job in Hold.
  rewrite (existsb_find_some _ _ r Hold).
  split; [|split].
  - now destruct (negb (sqlite_int _)).
  - intros Hrange. apply sqlite_int_spec in Hrange. now rewrite Hrange.
  - intros Hrange. apply sqlite_int_false in Hrange. now rewrite Hrange.
Qed.

Lemma enqueue_duplicate_witness :
  enqueue DEFAULTS job_a 99 s1_completed
  = (s1_completed, Returned (mkResult false (AlreadyExists "a"))).
Proof.
  refine (proj1 (proj2 (enqueue_duplicate DEFAULTS job_a 99 s1_completed
                          "a" "true" _ eq_refl eq_refl _ _ eq_refl)) _);
    try discriminate.
  simpl. lia.
Defined.

(** A job without an id or a command, or with an empty one, is refused
    and nothing is stored. *)
Theorem enqueue_missing_fields (cfg : Config) (jd : JobData) (now : Z)
    (s : Store)
    (Hmissing :
       jd_id jd = None \/ jd_id jd = Some ""%string \/
       jd_command jd = None \/ jd_command jd = Some ""%string) :
  enqueue cfg jd now s = (s, Returned (mkResult false MissingFields)).
Proof.
  unfold enqueue.
  destruct (jd_id jd) as [j|]; [|reflexivity].
  destruct (jd_command jd) as [c|]; [|reflexivity].
  destruct Hmissing as [H | [H | [H | H]]]; try discriminate;
    injection H as ->; simpl; [reflexivity|].
  now rewrite orb_true_r.
Qed.

Lemma enqueue_missing_fields_witness :
  enqueue DEFAULTS (mkJobData (Some "z"%string) (Some ""%string) None None)
          0 empty_store
  = (empty_store, Returned (mkResult false MissingFields)).
Proof.
  apply enqueue_missing_fields. right. right. right. reflexivity.
Defined.

(** ** Reports about a job that does not exist *)

Lemma sql_update_no_match (wh : Job -> bool) (set : Job -> Job)
    (rows : list Job) :
  (forall r, In r rows -> wh r = false) ->
  sql_update wh set rows = (rows, 0%nat).
Proof.
  intros H. unfold sql_update. f_equal.
  - rewrite <- (map_id rows) at 2. apply map_ext_in.
    intros r Hin. now rewrite (H r Hin).
  - induction rows as [|a rows IH]; [reflexivity|]. simpl.
    rewrite (H a (or_introl eq_refl)). apply IH.
    intros r Hin. apply H. now right.
Qed.

(** Completing or failing an id that is not stored changes nothing:
    [handle_job_success] returns [False], [handle_job_failure] the action
    "error". *)
Theorem report_on_unknown_job (cfg : Config) (job_id err w : string)
    (now_q now : Z) (s : Store) (Hnone : get_job job_id s = None) :
  handle_job_success job_id w now s = (s, false) /\
  fst (handle_job_failure cfg job_id err w now_q now s) = s /\
  exists d,
    snd (handle_job_failure cfg job_id err w now_q now s) = Returned d /\
    action d = "error"%string.
Proof.
  split.
  - unfold handle_job_success, update_job_state.
    rewrite sql_update_no_match.
    + now destruct s.
    + intros r Hin. exact (find_none _ _ Hnone r Hin).
  - unfold handle_job_failure. rewrite Hnone.
    split; [reflexivity | eexists; split; reflexivity].
Qed.

Lemma report_on_unknown_job_witness :
  handle_job_success "zz" "w1" 50 s1_leased = (s1_leased, false) /\
  fst (handle_job_failure DEFAULTS "zz" "boom" "w1" 50 51 s1_leased)
  = s1_leased /\
  exists d,
    snd (handle_job_failure DEFAULTS "zz" "boom" "w1" 50 51 s1_leased)
    = Returned d /\
    action d = "error"%string.
Proof.
  exact (report_on_unknown_job DEFAULTS "zz" "boom" "w1" 50 51 s1_leased
           eq_refl).
Defined.

(** ** Leases *)

Lemma get_next_pending_job_leased (w : string) (now : Z) (s : Store)
    (job : Job) :
  primary_key (jobs s) ->
  snd (get_next_pending_job w now s) = Some job ->
  exists row,
    In row (jobs s) /\ eligible now row /\ id job = id row /\
    get_job (id row) (fst (get_next_pending_job w now s))
    = Some (lease_set w now row).
Proof.
  intros Hpk Hret.
  destruct (hd_error (order_by_created_at_asc
                        (filter (lease_select now) (jobs s)))) as [row|] eqn:E.
  - destruct (get_next_pending_job_selected w now s row E)
      as (Hin & Hel & _ & Hsnd & Hget).
    rewrite Hsnd in Hret. injection Hret as <-.
    exists row. split; [exact Hin|]. split; [exact Hel|].
    split; [reflexivity|].
    rewrite Hget, (In_get_job s row Hpk Hin). simpl.
    rewrite String.eqb_refl.
    destruct Hel as [_ Hun]. apply unowned_spec in Hun. now rewrite Hun.
  - destruct (get_next_pending_job_none w now s E) as [Hnone _].
    rewrite Hnone in Hret. discriminate.
Qed.

Lemma eligible_state (now : Z) (r : Job) :
  eligible now r -> state r = PENDING \/ state r = FAILED.
Proof. intros [[H | [H _]] _]; auto. Qed.

(** No job is handed out twice: the job a lease returns is not returned
    by the next lease, whoever asks and whenever. *)
Theorem lease_not_twice (w1 w2 : string) (now1 now2 : Z) (s : Store)
    (job1 job2 : Job)
    (Hpk : primary_key (jobs s))
    (H1 : snd (get_next_pending_job w1 now1 s) = Some job1)
    (H2 : snd (get_next_pending_job w2 now2
                 (fst (get_next_pending_job w1 now1 s))) = Some job2) :
  id job1 <> id job2.
Proof.
  destruct (get_next_pending_job_leased w1 now1 s job1 Hpk H1)
    as (row1 & _ & _ & Hid1 & Hget1).
  pose proof (step_primary_key DEFAULTS s (OpLease w1 now1) Hpk) as Hpk1.
  cbn [step] in Hpk1.
  destruct (get_next_pending_job_leased w2 now2 _ job2 Hpk1 H2)
    as (row2 & Hin2 & Hel2 & Hid2 & _).
  intros Heq. rewrite Hid1, Hid2 in Heq.
  pose proof (In_get_job _ row2 Hpk1 Hin2) as Hget2.
  rewrite <- Heq, Hget1 in Hget2. injection Hget2 as <-.
  apply eligible_state in Hel2. simpl in Hel2.
  destruct Hel2; discriminate.
Qed.

Lemma lease_not_twice_witness :
  primary_key (jobs two_pending) /\
  forall job1 job2,
    snd (get_next_pending_job "w1" 10 two_pending) = Some job1 ->
    snd (get_next_pending_job "w2" 11
           (fst (get_next_pending_job "w1" 10 two_pending))) = Some job2 ->
    id job1 <> id job2.
Proof.
  assert (Hpk : primary_key (jobs two_pending)).
  { unfold primary_key. simpl.
    repeat constructor; simpl; intuition discriminate. }
  split; [exact Hpk|]. intros job1 job2.
  exact (lease_not_twice "w1" "w2" 10 11 two_pending job1 job2 Hpk).
Defined.

(** The backoff is respected: after a failure that is to be retried, at
    a retry time [now + min(backoff_base ** attempts_after,
    backoff_max_delay)] seconds that is still a [datetime], the job is
    failed with that [next_retry_at], it is eligible for a lease exactly
    from that instant on, and a lease before it returns another job or
    none.  When the retry time is past [datetime.max] the report raises
    [OverflowError] and the store is as it was. *)
Theorem failed_job_waits_for_backoff (cfg : Config) (job_id err w : string)
    (now_q now : Z) (s : Store) (job : Job)
    (Hpk : primary_key (jobs s))
    (Hjob : get_job job_id s = Some job)
    (Hretry : attempts job + 1 < max_retries job)
    (Hclock : 0 <= now_q <= 315537897599999999) :
  let s' := fst (handle_job_failure cfg job_id err w now_q now s) in
  let due :=
    now_q + 1000000 * Z.min (backoff_base cfg ^ (attempts job + 1))
                            (backoff_max_delay cfg) in
  (0 <= due <= 315537897599999999 ->
   (exists row,
       get_job job_id s' = Some row /\
       state row = FAILED /\ next_retry_at row = Some due /\
       forall t, eligible t row <-> due <= t) /\
   (forall w' t job',
       t < due ->
       snd (get_next_pending_job w' t s') = Some job' ->
       id job' <> job_id)) /\
  (~ (0 <= due <= 315537897599999999) ->
   s' = s /\
   snd (handle_job_failure cfg job_id err w now_q now s)
   = Raised OverflowError).
Proof.
  cbv zeta.
  assert (D : decides_dlq job = false) by (apply decides_dlq_false; lia).
  destruct (retry_time_spec now_q
              (Z.min (backoff_base cfg ^ (attempts job + 1))
                     (backoff_max_delay cfg)) Hclock) as [Hin Hout].
  split; intros Hrange.
  - pose proof (step_primary_key cfg s (OpFail job_id err w now_q now) Hpk)
      as Hpk'.
    cbn [step] in Hpk'. revert Hpk'.
    rewrite (handle_job_failure_retry cfg job_id err w now_q now s job _
               Hjob D (Hin Hrange)).
    cbn [fst]. intros Hpk'.
    set (due := now_q + 1000000 * Z.min (backoff_base cfg ^ (attempts job + 1))
                                        (backoff_max_delay cfg)) in *.
    assert (Hrow :
              get_job job_id
                (fst (increment_job_attempts job_id due (Some err) now s))
              = Some (increment_job_attempts_set due (Some err) now job))
      by now rewrite get_job_increment_job_attempts, String.eqb_refl, Hjob.
    assert (Hel :
              forall t,
                eligible t (increment_job_attempts_set due (Some err) now job)
                <-> due <= t).
    { intros t. unfold eligible. simpl. split.
      - intros [[H | [_ (t' & [= <-] & Hle)]] _]; [discriminate | exact Hle].
      - intros Hle. split; [right; split; eauto | now right]. }
    split.
    + eexists. split; [exact Hrow|]. split; [reflexivity|].
      split; [reflexivity | exact Hel].
    + intros w' t job' Hearly Hlease Hsame.
      destruct (get_next_pending_job_leased w' t _ job' Hpk' Hlease)
        as (row & Hin' & Helig & Hid & _).
      pose proof (In_get_job _ row Hpk' Hin') as Hget.
      rewrite <- Hid, Hsame, Hrow in Hget. injection Hget as <-.
      apply Hel in Helig. lia.
  - rewrite (handle_job_failure_raise cfg job_id err w now_q now s job
               Hjob D (Hout Hrange)).
    split; reflexivity.
Qed.

Lemma failed_job_waits_for_backoff_witness :
  primary_key (jobs failed_once_leased) /\
  (exists row,
      get_job "a" (fst (handle_job_failure DEFAULTS "a" "Exit code 1: " "w2"
                                           3500000 3500001
                                           failed_once_leased)) = Some row /\
      state row = FAILED /\ next_retry_at row = Some 7500000 /\
      forall t, eligible t row <-> 7500000 <= t) /\
  (forall w' t job',
      t < 7500000 ->
      snd (get_next_pending_job w' t
             (fst (handle_job_failure DEFAULTS "a" "Exit code 1: " "w2"
                                      3500000 3500001 failed_once_leased)))
      = Some job' ->
      id job' <> "a"%string).
Proof.
  assert (Hpk : primary_key (jobs failed_once_leased)).
  { unfold primary_key. simpl. repeat constructor. simpl. intuition. }
  split; [exact Hpk|].
  refine (proj1 (failed_job_waits_for_backoff DEFAULTS "a" "Exit code 1: "
                   "w2" 3500000 3500001 failed_once_leased _ Hpk eq_refl
                   _ _) _).
  - simpl. lia.
  - lia.
  - simpl. lia.
Defined.

(** ** What no operation changes *)

Lemma register_worker_jobs (w : string) (pid now : Z) (s : Store) :
  jobs (fst (register_worker w pid now s)) = jobs s.
Proof.
  unfold register_worker. now destruct (negb (sqlite_int pid)).
Qed.

Lemma get_job_register_worker (w k : string) (pid now : Z) (s : Store) :
  get_job k (fst (register_worker w pid now s)) = get_job k s.
Proof. unfold get_job. now rewrite register_worker_jobs. Qed.

Lemma row_step_frame (cfg : Config) (k : string) (op : Op) (r r' : Job) :
  row_step cfg k op r r' ->
  id r' = id r /\ command r' = command r /\
  max_retries r' = max_retries r /\ created_at r' = created_at r /\
  metadata r' = metadata r /\ attempts r <= attempts r'.
Proof.
  intros H. destruct H; simpl; repeat split; lia.
Qed.

Lemma get_job_deregister_worker (w k : string) (s : Store) :
  get_job k (fst (deregister_worker w s))
  = option_map (fun r => if deregister_worker_where w r
                         then deregister_worker_set r else r)
               (get_job k s).
Proof.
  exact (get_job_sql_update (deregister_worker_where w) deregister_worker_set
           k s _ (fun r => eq_refl)).
Qed.

(** Jobs are never deleted, and what the producer submitted never
    changes: whatever the queue and the workers do afterwards, a stored
    job stays stored with the same command, [max_retries], [created_at]
    and metadata, and its [attempts] never decreases. *)
Theorem jobs_persist (cfg : Config) (s0 s : Store) (k : string) (r : Job)
    (Hev : evolves cfg s0 s) (Hjob : get_job k s0 = Some r) :
  exists r',
    get_job k s = Some r' /\
    command r' = command r /\ max_retries r' = max_retries r /\
    created_at r' = created_at r /\ metadata r' = metadata r /\
    attempts r <= attempts r'.
Proof.
  induction Hev as [ | s op _ IH | s w pid now _ IH | s w now _ IH
                     | s w _ IH ].
  - exists r. repeat split; [exact Hjob | lia].
  - destruct IH as (r1 & Hget & Hc & Hm & Ht & Hd & Ha).
    pose proof (step_get_job cfg s op k) as H. rewrite Hget in H.
    destruct H as (r' & Hget' & Hstep).
    apply row_step_frame in Hstep.
    destruct Hstep as (_ & Hc' & Hm' & Ht' & Hd' & Ha').
    exists r'. repeat split; try congruence. lia.
  - now rewrite get_job_register_worker.
  - exact IH.
  - destruct IH as (r1 & Hget & Hc & Hm & Ht & Hd & Ha).
    rewrite get_job_deregister_worker, Hget. simpl.
    eexists. split; [reflexivity|].
    destruct (deregister_worker_where w r1); simpl; repeat split; assumption.
Qed.

Lemma jobs_persist_witness :
  exists r',
    get_job "b" (fst (deregister_worker "test-worker-2"
                        (run cfg_s2 s2_ops empty_store))) = Some r' /\
    command r' = "false"%string /\ max_retries r' = 2 /\
    created_at r' = 0 /\ metadata r' = None /\ 0 <= attempts r'.
Proof.
  refine (jobs_persist cfg_s2 (run cfg_s2 [OpEnqueue job_b 0] empty_store)
            _ "b" _ _ eq_refl).
  apply ev_deregister.
  apply (ev_step cfg_s2 _ _
           (OpFail "b" "Exit code 1: " "test-worker-2" 3300000 3300001)).
  apply (ev_step cfg_s2 _ _ (OpLease "test-worker-2" 3200000)).
  apply (ev_step cfg_s2 _ _
           (OpFail "b" "Exit code 1: " "test-worker-2" 1100000 1100001)).
  apply (ev_step cfg_s2 _ _ (OpLease "test-worker-2" 1000000)).
  apply ev_refl.
Defined.

(** ** Consistency of the reachable stores *)

Lemma row_step_consistent (cfg : Config) (k : string) (op : Op) (r r' : Job) :
  row_step cfg k op r r' -> row_consistent r -> row_consistent r'.
Proof.
  unfold row_consistent.
  intros Hstep (Ha & Hproc & Hun & Hfail & Hdone).
  destruct Hstep; simpl.
  - auto.
  - repeat split; auto; try discriminate.
    intros [E | [E | E]]; discriminate.
  - repeat split; auto; try discriminate.
    intros [E | [E | E]]; discriminate.
  - repeat split; auto; discriminate.
  - repeat split; auto; discriminate.
  - repeat split; auto; try discriminate; lia.
  - auto.
Qed.

Lemma step_get_job_new (cfg : Config) (s : Store) (op : Op) (k : string)
    (r' : Job) :
  get_job k s = None ->
  get_job k (step cfg s op) = Some r' ->
  state r' = PENDING /\ attempts r' = 0 /\ worker_id r' = None.
Proof.
  intros Hnone Hget.
  pose proof (step_get_job cfg s op k) as H. rewrite Hnone in H.
  destruct H as [H | (r0 & _ & (jd & now & -> & _))]; [congruence|].
  cbn [step] in Hget.
  destruct (enqueue_cases cfg jd now s) as [E | (j & c & _ & E)];
    rewrite E in Hget.
  - congruence.
  - unfold get_job in Hget, Hnone. cbn [jobs] in Hget.
    rewrite find_snoc, Hnone in Hget. cbn [id] in Hget.
    destruct (String.eqb j k); [|discriminate].
    injection Hget as <-. repeat split.
Qed.

Lemma evolves_primary_key (cfg : Config) (s0 s : Store) :
  evolves cfg s0 s -> primary_key (jobs s0) -> primary_key (jobs s).
Proof.
  intros Hev Hpk.
  induction Hev as [ | s op _ IH | s w pid now _ IH | s w now _ IH
                     | s w _ IH ].
  - exact Hpk.
  - now apply step_primary_key.
  - now rewrite register_worker_jobs.
  - exact IH.
  - unfold primary_key. rewrite deregister_worker_jobs, map_map.
    erewrite map_ext; [exact IH|].
    intros r. now destruct (deregister_worker_where w r).
Qed.

Lemma evolves_consistent (cfg : Config) (s0 s : Store) :
  evolves cfg s0 s ->
  (forall k r, get_job k s0 = Some r -> row_consistent r) ->
  forall k r, get_job k s = Some r -> row_consistent r.
Proof.
  intros Hev H0.
  induction Hev as [ | s op _ IH | s w pid now _ IH | s w now _ IH
                     | s w _ IH ]; intros k r' Hget.
  - exact (H0 k r' Hget).
  - pose proof (step_get_job cfg s op k) as H.
    destruct (get_job k s) as [r|] eqn:E.
    + destruct H as (r0 & Hr0 & Hstep).
      rewrite Hget in Hr0. injection Hr0 as <-.
      exact (row_step_consistent cfg k op r r' Hstep (IH k r E)).
    + destruct (step_get_job_new cfg s op k r' E Hget) as (Hst & Ha & Hw).
      unfold row_consistent, unowned. rewrite Hst, Ha, Hw.
      repeat split; try discriminate; lia.
  - rewrite get_job_register_worker in Hget. exact (IH k r' Hget).
  - exact (IH k r' Hget).
  - rewrite get_job_deregister_worker in Hget.
    destruct (get_job k s) as [r|] eqn:E; [|discriminate].
    simpl in Hget. injection Hget as <-.
    specialize (IH k r E).
    destruct (deregister_worker_where w r); [|exact IH].
    destruct IH as (Ha & _). unfold row_consistent. simpl.
    repeat split; auto; discriminate.
Qed.

Lemma reachable_rows (cfg : Config) (s : Store) :
  reachable cfg s ->
  primary_key (jobs s) /\
  forall r, In r (jobs s) -> row_consistent r.
Proof.
  intros Hreach.
  assert (Hpk : primary_key (jobs s)).
  { apply (evolves_primary_key cfg empty_store s Hreach). constructor. }
  split; [exact Hpk|].
  intros r Hin.
  apply (evolves_consistent cfg empty_store s Hreach) with (k := id r).
  - intros k r0 H. discriminate.
  - now apply In_get_job.
Qed.

Lemma reachable_run (cfg : Config) (ops : list Op) (s : Store) :
  reachable cfg s -> reachable cfg (run cfg ops s).
Proof.
  revert s. induction ops as [|op ops IH]; intros s H; [exact H|].
  simpl. apply IH. now apply ev_step.
Qed.

(** In every store reachable from the empty database: ids are unique; a
    processing row has an owner and a [started_at]; a pending, failed or
    dlq row has no owner; a failed row has a [next_retry_at] and at least
    one attempt; a completed row has a [completed_at]. *)
Theorem reachable_consistent (cfg : Config) (s : Store)
    (Hreach : reachable cfg s) :
  primary_key (jobs s) /\
  forall r, In r (jobs s) -> row_consistent r.
Proof. exact (reachable_rows cfg s Hreach). Qed.

Lemma reachable_consistent_witness :
  primary_key (jobs (run cfg_s2 s2_ops empty_store)) /\
  forall r, In r (jobs (run cfg_s2 s2_ops empty_store)) -> row_consistent r.
Proof.
  apply (reachable_consistent cfg_s2).
  apply reachable_run. apply ev_refl.
Defined.

(** No job is stuck behind a stale owner: in a reachable store, as soon
    as some job is pending, or failed with [next_retry_at <= now], a lease
    returns a job. *)
Theorem lease_finds_waiting_job (cfg : Config) (s : Store) (w : string)
    (now : Z) (r : Job)
    (Hreach : reachable cfg s)
    (Hin : In r (jobs s))
    (Hwaiting :
       state r = PENDING \/
       (state r = FAILED /\
        exists t, next_retry_at r = Some t /\ t <= now)) :
  exists job,
    snd (get_next_pending_job w now s) = Some job /\
    state job = PROCESSING /\ worker_id job = Some w.
Proof.
  assert (Hel : lease_select now r = true).
  { apply lease_select_spec. split; [exact Hwaiting|]. apply unowned_spec.
    destruct (reachable_rows cfg s Hreach) as [_ Hall].
    destruct (Hall r Hin) as (_ & _ & Hun & _).
    apply Hun. destruct Hwaiting as [H | [H _]]; auto. }
  destruct (hd_error (order_by_created_at_asc
                        (filter (lease_select now) (jobs s))))
    as [row|] eqn:E.
  - destruct (get_next_pending_job_selected w now s row E)
      as (_ & _ & _ & Hsnd & _).
    exists (lease_dict w row). split; [exact Hsnd | split; reflexivity].
  - exfalso. apply order_by_created_at_asc_none in E.
    assert (Hf : In r (filter (lease_select now) (jobs s)))
      by (apply filter_In; split; [exact Hin | exact Hel]).
    rewrite E in Hf. exact Hf.
Qed.

Lemma lease_finds_waiting_job_witness :
  exists job,
    snd (get_next_pending_job "w9" 2000020 failed_once) = Some job /\
    state job = PROCESSING /\ worker_id job = Some "w9"%string.
Proof.
  refine (lease_finds_waiting_job DEFAULTS failed_once "w9" 2000020 _ _
            (or_introl eq_refl) _).
  - apply (reachable_run DEFAULTS failed_once_ops). apply ev_refl.
  - right. split; [reflexivity|]. exists 2000020. split; [reflexivity | lia].
Defined.

(** ** Statistics: [Storage.get_job_stats] and [Queue.get_stats] *)

Lemma stats_get_set (k k' : JobState) (v : nat) (d : StatsDict) :
  stats_get k (stats_set k' v d)
  = if JobState_eqb k' k then Some v else stats_get k d.
Proof.
  induction d as [|[k0 v0] d IH]; simpl.
  - reflexivity.
  - destruct (JobState_eqb k0 k') eqn:E0; simpl.
    + apply JobState_eqb_eq in E0. subst k0.
      now destruct (JobState_eqb k' k).
    + rewrite IH. destruct (JobState_eqb k0 k) eqn:E1; [|reflexivity].
      apply JobState_eqb_eq in E1. subst k0.
      destruct k, k'; simpl in *; congruence.
Qed.

Lemma stats_set_keys (k : JobState) (v : nat) (d : StatsDict) :
  In k (map fst d) -> map fst (stats_set k v d) = map fst d.
Proof.
  induction d as [|[k0 v0] d IH]; simpl; [intros []|].
  intros Hin. destruct (JobState_eqb k0 k) eqn:E; simpl; [reflexivity|].
  f_equal. apply IH. destruct Hin as [-> | Hin]; [|exact Hin].
  destruct k; discriminate.
Qed.

Lemma stats_fold_get (f : JobState -> nat) (l : list JobState)
    (d : StatsDict) (k : JobState) :
  stats_get k
    (fold_left (fun stats row => stats_set (fst row) (snd row) stats)
               (map (fun st => (st, f st)) l) d)
  = if in_dec JobState_eq_dec k l then Some (f k) else stats_get k d.
Proof.
  revert d. induction l as [|a l IH]; intros d; simpl; [reflexivity|].
  rewrite IH. simpl. rewrite stats_get_set.
  destruct (in_dec JobState_eq_dec k l) as [Hin | Hnin].
  - destruct (JobState_eq_dec a k); reflexivity.
  - destruct (JobState_eq_dec a k) as [-> | Hne].
    + destruct k; reflexivity.
    + destruct (JobState_eqb a k) eqn:E; [|reflexivity].
      apply JobState_eqb_eq in E. contradiction.
Qed.

Lemma stats_fold_keys (rows : list (JobState * nat)) (d : StatsDict) :
  (forall k, In k (map fst d)) ->
  map fst (fold_left (fun stats row => stats_set (fst row) (snd row) stats)
                     rows d)
  = map fst d.
Proof.
  revert d. induction rows as [|[k v] rows IH]; intros d Hall; simpl;
    [reflexivity|].
  rewrite IH.
  - apply stats_set_keys, Hall.
  - intros k'. rewrite stats_set_keys by apply Hall. apply Hall.
Qed.

Lemma count_state_absent (st : JobState) (rows : list Job) :
  ~ In st (map state rows) -> count_state st rows = 0%nat.
Proof.
  unfold count_state. induction rows as [|a rows IH]; simpl; [reflexivity|].
  intros H. destruct (JobState_eqb (state a) st) eqn:E.
  - apply JobState_eqb_eq in E. exfalso. apply H. now left.
  - apply IH. intros Hin. apply H. now right.
Qed.

Lemma count_state_total (rows : list Job) :
  (count_state PENDING rows + (count_state PROCESSING rows
   + (count_state COMPLETED rows + (count_state FAILED rows
   + (count_state DLQ rows + 0)))))%nat
  = List.length rows.
Proof.
  unfold count_state. induction rows as [|a rows IH]; simpl; [reflexivity|].
  destruct (state a); simpl; lia.
Qed.

Lemma get_job_stats_get (s : Store) (st : JobState) :
  stats_get st (get_job_stats s) = Some (count_state st (jobs s)).
Proof.
  unfold get_job_stats, group_by_state. rewrite stats_fold_get.
  destruct (in_dec JobState_eq_dec st
              (nodup JobState_eq_dec (map state (jobs s)))) as [Hin | Hnin];
    [reflexivity|].
  rewrite count_state_absent.
  - now destruct st.
  - intros Hin. apply Hnin. now apply nodup_In.
Qed.

Lemma get_job_stats_keys (s : Store) :
  map fst (get_job_stats s) = [PENDING; PROCESSING; COMPLETED; FAILED; DLQ].
Proof.
  unfold get_job_stats. rewrite stats_fold_keys; [reflexivity|].
  intros k. simpl. destruct k; auto 6.
Qed.

(** The statistics are exact and zero-filled: the dictionary has an entry
    for each of the five states, in the order of the source, whose value
    is the number of rows in that state; [total_jobs] is the number of
    rows of the table. *)
Theorem get_stats_counts (s : Store) :
  get_job_stats s
  = [ (PENDING, count_state PENDING (jobs s));
      (PROCESSING, count_state PROCESSING (jobs s));
      (COMPLETED, count_state COMPLETED (jobs s));
      (FAILED, count_state FAILED (jobs s));
      (DLQ, count_state DLQ (jobs s)) ] /\
  total_jobs (get_stats s) = List.length (jobs s).
Proof.
  assert (Heq : get_job_stats s
                = [ (PENDING, count_state PENDING (jobs s));
                    (PROCESSING, count_state PROCESSING (jobs s));
                    (COMPLETED, count_state COMPLETED (jobs s));
                    (FAILED, count_state FAILED (jobs s));
                    (DLQ, count_state DLQ (jobs s)) ]).
  { pose proof (get_job_stats_keys s) as Hk.
    pose proof (get_job_stats_get s) as Hg.
    destruct (get_job_stats s) as [|[k1 v1] [|[k2 v2] [|[k3 v3]
      [|[k4 v4] [|[k5 v5] [|]]]]]]; try discriminate.
    simpl in Hk. injection Hk as -> -> -> -> ->.
    pose proof (Hg PENDING) as H1. pose proof (Hg PROCESSING) as H2.
    pose proof (Hg COMPLETED) as H3. pose proof (Hg FAILED) as H4.
    pose proof (Hg DLQ) as H5. simpl in H1, H2, H3, H4, H5.
    congruence. }
  split; [exact Heq|].
  unfold get_stats. cbn [total_jobs]. rewrite Heq.
  exact (count_state_total (jobs s)).
Qed.

(** ** The workers table *)

Lemma step_workers (cfg : Config) (s : Store) (op : Op) :
  workers (step cfg s op) = workers s.
Proof.
  destruct op as [jd now | w now | j w now | j err w nq now | j now];
    cbn [step].
  - destruct (enqueue_cases cfg jd now s) as [-> | (j & c & _ & ->)];
      reflexivity.
  - unfold get_next_pending_job.
    destruct (hd_error _); reflexivity.
  - reflexivity.
  - unfold handle_job_failure. destruct (get_job j s); [|reflexivity].
    cbv zeta. destruct (_ >=? _); [reflexivity|].
    destruct (retry_time nq _); reflexivity.
  - unfold retry_job. destruct (get_job j s) as [job|]; [|reflexivity].
    destruct (state job); try reflexivity.
    + destruct (update_job_state j PENDING None None now s) as [s' ok] eqn:E.
      assert (Hw : workers s' = workers s)
        by (change s' with (fst (s', ok)); now rewrite <- E).
      now destruct ok.
    + destruct (update_job_state j PENDING None None now s) as [s' ok] eqn:E.
      assert (Hw : workers s' = workers s)
        by (change s' with (fst (s', ok)); now rewrite <- E).
      now destruct ok.
Qed.

Lemma register_worker_bound (w : string) (pid now : Z) (s : Store) :
  sqlite_int pid = true ->
  register_worker w pid now s
  = (mkStore (jobs s)
       (filter (fun x => negb (String.eqb (w_worker_id x) w)) (workers s)
        ++ [mkWorker w pid now now "active"%string]),
     true).
Proof. intros H. unfold register_worker. now rewrite H. Qed.

Lemma get_worker_register_worker (w w' : string) (pid now : Z) (s : Store) :
  sqlite_int pid = true ->
  get_worker w' (fst (register_worker w pid now s))
  = if String.eqb w w' then Some (mkWorker w pid now now "active")
    else get_worker w' s.
Proof.
  intros Hpid. rewrite (register_worker_bound w pid now s Hpid).
  unfold get_worker. cbn [fst workers].
  induction (workers s) as [|x ws IH]; simpl.
  - reflexivity.
  - destruct (String.eqb (w_worker_id x) w) eqn:E; simpl.
    + rewrite IH. apply String.eqb_eq in E. rewrite E.
      now destruct (String.eqb w w').
    + rewrite IH. destruct (String.eqb (w_worker_id x) w') eqn:E';
        [|reflexivity].
      apply String.eqb_eq in E'. subst w'.
      rewrite String.eqb_sym. now rewrite E.
Qed.

Lemma count_register_worker (w : string) (pid now : Z) (s : Store) :
  sqlite_int pid = true ->
  List.length
    (filter (fun x => String.eqb (w_worker_id x) w)
            (workers (fst (register_worker w pid now s))))
  = 1%nat.
Proof.
  intros Hpid. rewrite (register_worker_bound w pid now s Hpid).
  cbn [fst workers].
  rewrite filter_app. simpl. rewrite String.eqb_refl.
  rewrite length_app. simpl.
  replace (filter (fun x => String.eqb (w_worker_id x) w)
             (filter (fun x => negb (String.eqb (w_worker_id x) w))
                     (workers s)))
    with (@nil WorkerRow); [reflexivity|].
  induction (workers s) as [|x ws IH]; simpl; [reflexivity|].
  destruct (String.eqb (w_worker_id x) w) eqn:E; simpl; [exact IH|].
  now rewrite E.
Qed.

(** Registration is idempotent: after [register_worker] with a pid that
    fits a 64-bit integer the call returns [True] and there is exactly one
    row for the worker, holding the new pid, start time and heartbeat with
    status "active", whether or not it was registered before; the rows of
    the other workers are as they were, and so are the jobs.  With a pid
    outside 64 bits the call returns [False] and writes nothing. *)
Theorem register_worker_idempotent (w : string) (pid now : Z) (s : Store) :
  (-9223372036854775808 <= pid <= 9223372036854775807 ->
   snd (register_worker w pid now s) = true /\
   List.length
     (filter (fun x => String.eqb (w_worker_id x) w)
             (workers (fst (register_worker w pid now s))))
   = 1%nat /\
   get_worker w (fst (register_worker w pid now s))
   = Some (mkWorker w pid now now "active") /\
   (forall w', w' <> w ->
               get_worker w' (fst (register_worker w pid now s))
               = get_worker w' s) /\
   jobs (fst (register_worker w pid now s)) = jobs s) /\
  (~ (-9223372036854775808 <= pid <= 9223372036854775807) ->
   register_worker w pid now s = (s, false)).
Proof.
  split; intros Hrange.
  - apply sqlite_int_spec in Hrange.
    split; [now rewrite (register_worker_bound w pid now s Hrange)|].
    split; [now apply count_register_worker|]. split; [|split].
    + now rewrite get_worker_register_worker, String.eqb_refl.
    + intros w' Hne. rewrite get_worker_register_worker by exact Hrange.
      apply not_eq_sym in Hne. apply String.eqb_neq in Hne. now rewrite Hne.
    + apply register_worker_jobs.
  - apply sqlite_int_false in Hrange. unfold register_worker.
    now rewrite Hrange.
Qed.

Lemma register_worker_idempotent_witness :
  (List.length
     (filter (fun x => String.eqb (w_worker_id x) "w1")
             (workers (fst (register_worker "w1" 42 5
                              (fst (register_worker "w1" 41 1
                                      s1_completed))))))
   = 1%nat /\
   get_worker "w1" (fst (register_worker "w1" 42 5
                           (fst (register_worker "w1" 41 1 s1_completed))))
   = Some (mkWorker "w1" 42 5 5 "active")) /\
  register_worker "w1" 9223372036854775808 5 s1_completed
  = (s1_completed, false).
Proof.
  split.
  - destruct (proj1 (register_worker_idempotent "w1" 42 5
                       (fst (register_worker "w1" 41 1 s1_completed))))
      as (_ & H1 & H2 & _); [lia|].
    split; [exact H1 | exact H2].
  - apply (proj2 (register_worker_idempotent "w1" 9223372036854775808 5
                    s1_completed)). lia.
Defined.

Lemma get_worker_update_worker_heartbeat (w w' : string) (now : Z)
    (s : Store) :
  get_worker w' (fst (update_worker_heartbeat w now s))
  = if String.eqb w' w
    then option_map
           (fun x => mkWorker (w_worker_id x) (w_pid x) (w_started_at x) now
                              (w_status x))
           (get_worker w' s)
    else get_worker w' s.
Proof.
  unfold get_worker, update_worker_heartbeat. cbn [fst workers].
  induction (workers s) as [|x ws IH]; simpl.
  - now destruct (String.eqb w' w).
  - destruct (String.eqb (w_worker_id x) w) eqn:E; simpl.
    + destruct (String.eqb (w_worker_id x) w') eqn:E'.
      * apply String.eqb_eq in E, E'. subst w w'.
        now rewrite String.eqb_refl.
      * exact IH.
    + destruct (String.eqb (w_worker_id x) w') eqn:E'; [|exact IH].
      apply String.eqb_eq in E'. subst w'. now rewrite E.
Qed.

Lemma update_worker_heartbeat_unknown (w : string) (now : Z) (s : Store) :
  get_worker w s = None -> update_worker_heartbeat w now s = (s, false).
Proof.
  unfold get_worker, update_worker_heartbeat. intros H.
  assert (Hall : forall x, In x (workers s) ->
                           String.eqb (w_worker_id x) w = false)
    by exact (find_none _ _ H).
  destruct s as [js ws]. cbn [jobs workers] in *. f_equal.
  - f_equal. rewrite <- (map_id ws) at 2. apply map_ext_in.
    intros x Hin. now rewrite (Hall x Hin).
  - clear H. induction ws as [|x ws IH]; [reflexivity|]. simpl.
    rewrite (Hall x (or_introl eq_refl)). apply IH.
    intros y Hy. apply Hall. now right.
Qed.

(** A heartbeat of an unregistered worker returns [False] and changes
    nothing; a heartbeat of a registered worker returns [True] and
    replaces its [last_heartbeat] only.  No other worker and no job is
    touched. *)
Theorem update_worker_heartbeat_effect (w : string) (now : Z) (s : Store) :
  (get_worker w s = None ->
   update_worker_heartbeat w now s = (s, false)) /\
  (forall x,
      get_worker w s = Some x ->
      snd (update_worker_heartbeat w now s) = true /\
      get_worker w (fst (update_worker_heartbeat w now s))
      = Some (mkWorker (w_worker_id x) (w_pid x) (w_started_at x) now
                       (w_status x))) /\
  (forall w', w' <> w ->
              get_worker w' (fst (update_worker_heartbeat w now s))
              = get_worker w' s) /\
  jobs (fst (update_worker_heartbeat w now s)) = jobs s.
Proof.
  split; [apply update_worker_heartbeat_unknown|]. split; [|split].
  - intros x Hx. split.
    + unfold update_worker_heartbeat. cbn [snd].
      unfold get_worker in Hx. apply find_some in Hx.
      assert (Hf : In x (filter (fun y => String.eqb (w_worker_id y) w)
                                (workers s)))
        by (apply filter_In; exact Hx).
      destruct (filter _ (workers s)); [destruct Hf | reflexivity].
    + now rewrite get_worker_update_worker_heartbeat, String.eqb_refl, Hx.
  - intros w' Hne. rewrite get_worker_update_worker_heartbeat.
    apply String.eqb_neq in Hne. now rewrite Hne.
  - reflexivity.
Qed.

Lemma get_worker_deregister_worker (w w' : string) (s : Store) :
  get_worker w' (fst (deregister_worker w s))
  = if String.eqb w' w then None else get_worker w' s.
Proof.
  unfold get_worker.
  change (workers (fst (deregister_worker w s)))
    with (filter (fun x => negb (String.eqb (w_worker_id x) w)) (workers s)).
  induction (workers s) as [|x ws IH]; simpl.
  - now destruct (String.eqb w' w).
  - destruct (String.eqb (w_worker_id x) w) eqn:E; simpl.
    + rewrite IH. destruct (String.eqb (w_worker_id x) w') eqn:E';
        [|reflexivity].
      apply String.eqb_eq in E, E'. subst w w'.
      now rewrite String.eqb_refl.
    + destruct (String.eqb (w_worker_id x) w') eqn:E'; [|exact IH].
      apply String.eqb_eq in E'. subst w'. now rewrite E.
Qed.

(** After [deregister_worker] the worker has no row left, the other
    workers keep theirs, and a late heartbeat of the deregistered worker
    is refused with [False] without bringing the row back. *)
Theorem deregister_worker_removes_row (w : string) (s : Store) :
  get_worker w (fst (deregister_worker w s)) = None /\
  (forall w', w' <> w ->
              get_worker w' (fst (deregister_worker w s)) = get_worker w' s) /\
  (forall now,
      update_worker_heartbeat w now (fst (deregister_worker w s))
      = (fst (deregister_worker w s), false)).
Proof.
  assert (Hnone : get_worker w (fst (deregister_worker w s)) = None)
    by now rewrite get_worker_deregister_worker, String.eqb_refl.
  split; [exact Hnone|]. split.
  - intros w' Hne. rewrite get_worker_deregister_worker.
    apply String.eqb_neq in Hne. now rewrite Hne.
  - intros now. now apply update_worker_heartbeat_unknown.
Qed.

Lemma NoDup_map_filter (p : WorkerRow -> bool) (ws : list WorkerRow) :
  NoDup (map w_worker_id ws) -> NoDup (map w_worker_id (filter p ws)).
Proof.
  induction ws as [|x ws IH]; simpl; [auto|].
  intros H. inversion H as [|y l Hnotin Hnd]; subst.
  destruct (p x); simpl; [|now apply IH].
  constructor; [|now apply IH].
  intros Hin. apply Hnotin. apply in_map_iff in Hin.
  destruct Hin as (z & Hz & Hzin). apply filter_In in Hzin.
  apply in_map_iff. exists z. tauto.
Qed.

Lemma evolves_workers (cfg : Config) (s0 s : Store) :
  evolves cfg s0 s ->
  NoDup (map w_worker_id (workers s0)) /\
  Forall (fun x => w_status x = "active"%string) (workers s0) ->
  NoDup (map w_worker_id (workers s)) /\
  Forall (fun x => w_status x = "active"%string) (workers s).
Proof.
  intros Hev H0.
  induction Hev as [ | s op _ IH | s w pid now _ IH | s w now _ IH
                     | s w _ IH ].
  - exact H0.
  - now rewrite step_workers.
  - destruct IH as [Hnd Hact]. unfold register_worker.
    destruct (negb (sqlite_int pid)); [now split|]. cbn [fst workers].
    split.
    + rewrite map_app. apply NoDup_app.
      * now apply NoDup_map_filter.
      * simpl. constructor; [intros [] | constructor].
      * intros a Ha [<- | []]. apply in_map_iff in Ha.
        destruct Ha as (x & Hx & Hin). apply filter_In in Hin.
        destruct Hin as [_ Hneg]. rewrite Hx, String.eqb_refl in Hneg.
        discriminate.
    + apply Forall_app. split.
      * apply Forall_forall. intros x Hin. apply filter_In in Hin.
        rewrite Forall_forall in Hact. now apply Hact.
      * now constructor.
  - destruct IH as [Hnd Hact]. unfold update_worker_heartbeat.
    cbn [fst workers]. split.
    + rewrite map_map. erewrite map_ext; [exact Hnd|].
      intros x. now destruct (String.eqb (w_worker_id x) w).
    + apply Forall_forall. intros y Hy. apply in_map_iff in Hy.
      destruct Hy as (x & <- & Hin). rewrite Forall_forall in Hact.
      destruct (String.eqb (w_worker_id x) w); simpl; now apply Hact.
  - destruct IH as [Hnd Hact].
    change (workers (fst (deregister_worker w s)))
      with (filter (fun x => negb (String.eqb (w_worker_id x) w))
                   (workers s)).
    split; [now apply NoDup_map_filter|].
    apply Forall_forall. intros x Hin. apply filter_In in Hin.
    rewrite Forall_forall in Hact. now apply Hact.
Qed.

(** In every reachable store the workers table has one row per worker
    id, and every registered worker counts as active: the code never
    writes another status, so [active = total] in [Queue.get_stats]. *)
Theorem reachable_workers (cfg : Config) (s : Store)
    (Hreach : reachable cfg s) :
  NoDup (map w_worker_id (workers s)) /\
  workers_active (get_stats s) = workers_total (get_stats s).
Proof.
  destruct (evolves_workers cfg empty_store s Hreach) as [Hnd Hact].
  { split; constructor. }
  split; [exact Hnd|].
  unfold get_stats. cbn [workers_active workers_total].
  induction (workers s) as [|x ws IH]; simpl; [reflexivity|].
  inversion Hact as [|y l Hx Hrest]; subst. rewrite Hx. simpl.
  f_equal. apply IH.
  - now inversion Hnd.
  - exact Hrest.
Qed.

Lemma reachable_workers_witness :
  NoDup (map w_worker_id
           (workers (fst (register_worker "w1" 42 5
                            (fst (register_worker "w1" 41 1 s1_completed)))))) /\
  workers_active
    (get_stats (fst (register_worker "w1" 42 5
                       (fst (register_worker "w1" 41 1 s1_completed)))))
  = workers_total
      (get_stats (fst (register_worker "w1" 42 5
                         (fst (register_worker "w1" 41 1 s1_completed))))).
Proof.
  apply (reachable_workers DEFAULTS).
  apply ev_register. apply ev_register.
  apply (reachable_run DEFAULTS s1_ops). apply ev_refl.
Defined.

(** ** Listings: [Storage.list_jobs] and [Queue.get_dlq_jobs] *)

Lemma insert_by_created_at_desc_perm (r : Job) (rows : list Job) :
  Permutation (insert_by_created_at_desc r rows) (r :: rows).
Proof.
  induction rows as [|a rows IH]; simpl; [reflexivity|].
  destruct (created_at a <=? created_at r); [reflexivity|].
  rewrite IH. apply perm_swap.
Qed.

Lemma order_by_created_at_desc_perm (rows : list Job) :
  Permutation (order_by_created_at_desc rows) rows.
Proof.
  induction rows as [|a rows IH]; simpl; [reflexivity|].
  rewrite insert_by_created_at_desc_perm. now constructor.
Qed.

Lemma insert_by_created_at_desc_sorted (r : Job) (rows : list Job) :
  StronglySorted newer_first rows ->
  StronglySorted newer_first (insert_by_created_at_desc r rows).
Proof.
  induction rows as [|a rows IH]; simpl; intros Hs.
  - constructor; constructor.
  - apply StronglySorted_inv in Hs. destruct Hs as [Hs Hall].
    destruct (created_at a <=? created_at r) eqn:E.
    + apply Z.leb_le in E. constructor.
      * constructor; assumption.
      * constructor; [exact E|].
        eapply Forall_impl; [|exact Hall].
        unfold newer_first. intros x Hx. lia.
    + apply Z.leb_gt in E. constructor; [now apply IH|].
      apply Forall_forall. intros x Hx.
      apply (Permutation_in _ (insert_by_created_at_desc_perm r rows)) in Hx.
      destruct Hx as [<- | Hx].
      * unfold newer_first. lia.
      * rewrite Forall_forall in Hall. now apply Hall.
Qed.

Lemma order_by_created_at_desc_sorted (rows : list Job) :
  StronglySorted newer_first (order_by_created_at_desc rows).
Proof.
  induction rows as [|a rows IH]; simpl; [constructor|].
  now apply insert_by_created_at_desc_sorted.
Qed.

Lemma In_firstn (n : nat) (rows : list Job) (x : Job) :
  In x (firstn n rows) -> In x rows.
Proof.
  intros H. rewrite <- (firstn_skipn n rows). apply in_or_app. now left.
Qed.

Lemma firstn_sorted (n : nat) (rows : list Job) :
  StronglySorted newer_first rows ->
  StronglySorted newer_first (firstn n rows).
Proof.
  revert rows. induction n as [|n IH]; intros rows Hs; [constructor|].
  destruct rows as [|a rows]; [constructor|]. simpl.
  apply StronglySorted_inv in Hs. destruct Hs as [Hs Hall].
  constructor; [now apply IH|].
  apply Forall_forall. intros x Hx. rewrite Forall_forall in Hall.
  apply Hall. now apply In_firstn in Hx.
Qed.

Lemma sorted_split (n : nat) (rows : list Job) :
  StronglySorted newer_first rows ->
  forall a b, In a (firstn n rows) -> In b (skipn n rows) -> newer_first a b.
Proof.
  revert rows. induction n as [|n IH]; intros rows Hs a b Ha Hb.
  - destruct Ha.
  - destruct rows as [|x rows]; [destruct Ha|]. simpl in Ha, Hb.
    apply StronglySorted_inv in Hs. destruct Hs as [Hs Hall].
    destruct Ha as [<- | Ha].
    + rewrite Forall_forall in Hall. apply Hall.
      rewrite <- (firstn_skipn n rows). apply in_or_app. now right.
    + exact (IH rows Hs a b Ha Hb).
Qed.

Lemma sql_limit_sorted (limit : Z) (rows : list Job) :
  StronglySorted newer_first rows ->
  (forall r, In r (sql_limit limit rows) -> In r rows) /\
  StronglySorted newer_first (sql_limit limit rows) /\
  (0 <= limit ->
   (List.length (sql_limit limit rows) <= Z.to_nat limit)%nat) /\
  (limit < 0 \/ Z.of_nat (List.length rows) <= limit ->
   sql_limit limit rows = rows) /\
  (forall r r',
      In r (sql_limit limit rows) -> In r' rows ->
      ~ In r' (sql_limit limit rows) -> newer_first r r').
Proof.
  intros Hs. unfold sql_limit. destruct (limit <? 0) eqn:E.
  - apply Z.ltb_lt in E. repeat split; auto.
    + lia.
    + intros r r' _ Hin Hnin. contradiction.
  - apply Z.ltb_ge in E. split; [|split; [|split; [|split]]].
    + intros r. apply In_firstn.
    + now apply firstn_sorted.
    + intros _. apply firstn_le_length.
    + intros [H | H]; [lia|]. apply firstn_all2. lia.
    + intros r r' Hr Hr' Hnin.
      apply (sorted_split (Z.to_nat limit) rows Hs r r' Hr).
      rewrite <- (firstn_skipn (Z.to_nat limit) rows) in Hr'.
      apply in_app_or in Hr'. destruct Hr' as [H | H]; [contradiction|].
      exact H.
Qed.

Lemma filter_length (p : Job -> bool) (rows : list Job) :
  (List.length (filter p rows) <= List.length rows)%nat.
Proof.
  induction rows as [|a rows IH]; simpl; [lia|].
  destruct (p a); simpl; lia.
Qed.

Lemma list_jobs_unfold (st : option JobState) (limit : Z) (s : Store) :
  sqlite_int limit = true ->
  exists base,
    list_jobs st limit s
    = Returned (sql_limit limit (order_by_created_at_desc base)) /\
    (forall r, In r base <-> In r (jobs s) /\ state_matches st r) /\
    (List.length base <= List.length (jobs s))%nat.
Proof.
  intros Hlimit. unfold list_jobs. rewrite Hlimit. cbn [negb].
  destruct st as [st'|]; simpl.
  - eexists. split; [reflexivity|]. split; [|apply filter_length].
    intros r. rewrite filter_In, JobState_eqb_eq. reflexivity.
  - exists (jobs s). split; [reflexivity|]. split; [|lia].
    intros r. tauto.
Qed.

(** With a limit that fits a 64-bit integer, [list_jobs] lists stored
    jobs of the requested state only, newest first, at most [limit] of
    them (all of them under a negative limit, as SQLite has it); with a
    limit that is negative or not below the number of rows every matching
    job is listed; and a matching job that is left out is not newer than
    any job listed.  With a limit outside 64 bits the call raises
    [OverflowError]. *)
Theorem list_jobs_newest_first (st : option JobState) (limit : Z)
    (s : Store) :
  (-9223372036854775808 <= limit <= 9223372036854775807 ->
   exists listed,
     list_jobs st limit s = Returned listed /\
     (forall r, In r listed -> In r (jobs s) /\ state_matches st r) /\
     StronglySorted newer_first listed /\
     (0 <= limit -> (List.length listed <= Z.to_nat limit)%nat) /\
     (limit < 0 \/ Z.of_nat (List.length (jobs s)) <= limit ->
      forall r, In r (jobs s) -> state_matches st r -> In r listed) /\
     (forall r r',
         In r listed ->
         In r' (jobs s) -> state_matches st r' ->
         ~ In r' listed ->
         created_at r' <= created_at r)) /\
  (~ (-9223372036854775808 <= limit <= 9223372036854775807) ->
   list_jobs st limit s = Raised OverflowError).
Proof.
  split; intros Hrange.
  - apply sqlite_int_spec in Hrange.
    destruct (list_jobs_unfold st limit s Hrange)
      as (base & -> & Hbase & Hlen).
    pose proof (order_by_created_at_desc_perm base) as Hp.
    destruct (sql_limit_sorted limit _
                (order_by_created_at_desc_sorted base))
      as (Hin & Hsorted & Hmax & Hall & Hnewest).
    eexists. split; [reflexivity|].
    split; [|split; [exact Hsorted | split; [exact Hmax | split]]].
    + intros r Hr. apply Hbase. apply (Permutation_in _ Hp). now apply Hin.
    + intros Hlim r Hr Hm. rewrite Hall.
      * apply (Permutation_in _ (Permutation_sym Hp)). now apply Hbase.
      * destruct Hlim as [H | H]; [now left | right].
        rewrite (Permutation_length Hp). lia.
    + intros r r' Hr Hr' Hm Hnin. apply (Hnewest r r' Hr); [|exact Hnin].
      apply (Permutation_in _ (Permutation_sym Hp)). now apply Hbase.
  - apply sqlite_int_false in Hrange. unfold list_jobs. now rewrite Hrange.
Qed.

Lemma list_jobs_newest_first_witness :
  (exists listed,
      list_jobs None 1 two_pending = Returned listed /\
      map id listed = ["x"%string]) /\
  list_jobs None 9223372036854775808 two_pending = Raised OverflowError.
Proof.
  split.
  - destruct (proj1 (list_jobs_newest_first None 1 two_pending))
      as (listed & Heq & _); [lia|].
    exists listed. split; [exact Heq|].
    change (list_jobs None 1 two_pending)
      with (Returned (A := list Job)
              (sql_limit 1 (order_by_created_at_desc (jobs two_pending))))
      in Heq.
    injection Heq as <-. reflexivity.
  - apply (proj2 (list_jobs_newest_first None 9223372036854775808
                    two_pending)). lia.
Defined.

(** A job whose failure exhausts its budget can be inspected: right after
    that failure it is in the listing of [get_dlq_jobs], provided the
    limit is not below the number of stored jobs (and fits a 64-bit
    integer); and every job of that listing is in the DLQ. *)
Theorem exhausted_job_is_listed (cfg : Config) (job_id err w : string)
    (now_q now limit : Z) (s : Store) (job : Job)
    (Hjob : get_job job_id s = Some job)
    (Hspent : max_retries job <= attempts job + 1)
    (Hlimit : Z.of_nat (List.length (jobs s)) <= limit)
    (Hbound : limit <= 9223372036854775807) :
  let s' := fst (handle_job_failure cfg job_id err w now_q now s) in
  exists listed,
    get_dlq_jobs limit s' = Returned listed /\
    (exists row,
        In row listed /\ id row = job_id /\
        error_message row = Some err) /\
    (forall r, In r listed -> state r = DLQ).
Proof.
  cbv zeta. unfold get_dlq_jobs.
  assert (Hint : sqlite_int limit = true) by (apply sqlite_int_spec; lia).
  destruct (list_jobs_unfold (Some DLQ) limit
              (fst (handle_job_failure cfg job_id err w now_q now s)) Hint)
    as (base & Heq & Hbase & Hlen).
  pose proof (order_by_created_at_desc_perm base) as Hp.
  destruct (sql_limit_sorted limit _ (order_by_created_at_desc_sorted base))
    as (Hin & _ & _ & Hall & _).
  rewrite Heq. eexists. split; [reflexivity|]. split.
  - assert (D : decides_dlq job = true) by now apply decides_dlq_true.
    revert Hbase Hlen.
    rewrite (handle_job_failure_dlq cfg job_id err w now_q now s job Hjob D).
    cbn [fst]. intros Hbase Hlen.
    pose proof (get_job_move_to_dlq job_id (Some err) now job_id s) as Hget.
    rewrite String.eqb_refl, Hjob in Hget. simpl in Hget.
    apply get_job_In in Hget. destruct Hget as [Hrow Hid].
    exists (move_to_dlq_set (Some err) now job).
    split; [|split; [exact Hid | reflexivity]].
    rewrite Hall.
    + apply (Permutation_in _ (Permutation_sym Hp)). apply Hbase.
      split; [exact Hrow | reflexivity].
    + right. rewrite (Permutation_length Hp).
      assert (Hl : List.length (jobs (fst (move_to_dlq job_id (Some err)
                                             now s)))
                   = List.length (jobs s)).
      { rewrite <- (length_map id), move_to_dlq_ids. apply length_map. }
      lia.
  - intros r Hr. apply Hin in Hr. apply (Permutation_in _ Hp) in Hr.
    now apply Hbase in Hr.
Qed.

Lemma exhausted_job_is_listed_witness :
  exists listed,
    get_dlq_jobs 100
      (fst (handle_job_failure DEFAULTS "c" "Exit code 127: " "w1" 20 21
              (run DEFAULTS [OpEnqueue job_c 0; OpLease "w1" 10]
                   empty_store)))
    = Returned listed /\
    (exists row,
        In row listed /\ id row = "c"%string /\
        error_message row = Some "Exit code 127: "%string) /\
    (forall r, In r listed -> state r = DLQ).
Proof.
  refine (exhausted_job_is_listed DEFAULTS "c" "Exit code 127: " "w1" 20 21
            100 (run DEFAULTS [OpEnqueue job_c 0; OpLease "w1" 10]
                     empty_store) _ eq_refl _ _ _).
  - simpl. lia.
  - simpl. lia.
  - lia.
Defined.

(** ** The backoff schedule: [Config.calculate_backoff_delay] *)

(** With a base of at least one the delay never shrinks from one attempt
    to the next, it never exceeds [backoff_max_delay], and it is the plain
    power as long as that power does not exceed the cap. *)
Theorem calculate_backoff_delay_monotone (cfg : Config) (n m : Z)
    (Hbase : 1 <= backoff_base cfg) (Hn : 0 <= n) (Hnm : n <= m) :
  calculate_backoff_delay cfg n <= calculate_backoff_delay cfg m /\
  calculate_backoff_delay cfg m <= backoff_max_delay cfg /\
  (backoff_base cfg ^ m <= backoff_max_delay cfg ->
   calculate_backoff_delay cfg m = backoff_base cfg ^ m).
Proof.
  unfold calculate_backoff_delay. cbv zeta.
  assert (Hpow : backoff_base cfg ^ n <= backoff_base cfg ^ m)
    by (apply Z.pow_le_mono_r; lia).
  repeat split; lia.
Qed.

Lemma calculate_backoff_delay_monotone_witness :
  calculate_backoff_delay DEFAULTS 3 <= calculate_backoff_delay DEFAULTS 20 /\
  calculate_backoff_delay DEFAULTS 20 <= backoff_max_delay DEFAULTS /\
  (backoff_base DEFAULTS ^ 20 <= backoff_max_delay DEFAULTS ->
   calculate_backoff_delay DEFAULTS 20 = backoff_base DEFAULTS ^ 20).
Proof.
  apply calculate_backoff_delay_monotone; simpl; lia.
Defined.

(** The schedule of the default configuration: the delay after the n-th
    failure is [2 ** n] seconds up to the eleventh, and the cap of 3600
    seconds from the twelfth on. *)
Theorem default_backoff_schedule (n : Z) (Hn : 0 <= n) :
  (n <= 11 -> calculate_backoff_delay DEFAULTS n = 2 ^ n) /\
  (12 <= n -> calculate_backoff_delay DEFAULTS n = 3600).
Proof.
  unfold calculate_backoff_delay. simpl. split; intros H.
  - assert (Hp : 2 ^ n <= 2 ^ 11) by (apply Z.pow_le_mono_r; lia).
    change (2 ^ 11) with 2048 in Hp. lia.
  - assert (Hp : 2 ^ 12 <= 2 ^ n) by (apply Z.pow_le_mono_r; lia).
    change (2 ^ 12) with 4096 in Hp. lia.
Qed.

Lemma default_backoff_schedule_witness :
  (5 <= 11 -> calculate_backoff_delay DEFAULTS 5 = 2 ^ 5) /\
  (12 <= 5 -> calculate_backoff_delay DEFAULTS 5 = 3600).
Proof. apply default_backoff_schedule. lia. Defined.

(** ** [utils.truncate_string] *)

Lemma length_append (s1 s2 : string) :
  String.length (s1 ++ s2) = (String.length s1 + String.length s2)%nat.
Proof. induction s1 as [|c s1 IH]; simpl; [reflexivity | now rewrite IH]. Qed.

Lemma length_substring0 (n : nat) (s : string) :
  String.length (substring 0 n s) = Nat.min n (String.length s).
Proof.
  revert n. induction s as [|c s IH]; intros [|n]; simpl; try reflexivity.
  now rewrite IH.
Qed.

Lemma length_py_prefix (k : Z) (s : string) :
  Z.of_nat (String.length (py_prefix k s))
  = if k <? 0 then Z.max 0 (Z.of_nat (String.length s) + k)
    else Z.min k (Z.of_nat (String.length s)).
Proof.
  unfold py_prefix. cbv zeta. rewrite length_substring0.
  destruct (k <? 0) eqn:E; [apply Z.ltb_lt in E | apply Z.ltb_ge in E]; lia.
Qed.

Lemma length_truncated (s : string) (m : Z) :
  Z.of_nat (String.length (py_prefix (m - 3) s ++ "..."))
  = (if m - 3 <? 0 then Z.max 0 (Z.of_nat (String.length s) + (m - 3))
     else Z.min (m - 3) (Z.of_nat (String.length s))) + 3.
Proof.
  rewrite length_append, Nat2Z.inj_add, length_py_prefix. reflexivity.
Qed.

(** With a limit of at least three [truncate_string] keeps its promise:
    a string that fits is returned as it is, a longer one is cut to
    exactly [max_length] characters, the last three of them the ellipsis;
    and truncating twice is truncating once. *)
Theorem truncate_string_fits (s : string) (max_length : Z)
    (Hlimit : 3 <= max_length) :
  Z.of_nat (String.length (truncate_string s max_length))
  = Z.min (Z.of_nat (String.length s)) max_length /\
  (Z.of_nat (String.length s) <= max_length ->
   truncate_string s max_length = s) /\
  (max_length < Z.of_nat (String.length s) ->
   truncate_string s max_length
   = (substring 0 (Z.to_nat (max_length - 3)) s ++ "...")%string) /\
  truncate_string (truncate_string s max_length) max_length
  = truncate_string s max_length.
Proof.
  assert (Hlen : Z.of_nat (String.length (truncate_string s max_length))
                 = Z.min (Z.of_nat (String.length s)) max_length).
  { unfold truncate_string.
    destruct (Z.of_nat (String.length s) <=? max_length) eqn:E.
    - apply Z.leb_le in E. lia.
    - apply Z.leb_gt in E. rewrite length_truncated.
      destruct (max_length - 3 <? 0) eqn:E'; [apply Z.ltb_lt in E'; lia|].
      lia. }
  split; [exact Hlen|]. split; [|split].
  - intros H. unfold truncate_string. apply Z.leb_le in H. now rewrite H.
  - intros H. unfold truncate_string. apply Z.leb_gt in H. rewrite H.
    unfold py_prefix. cbv zeta.
    destruct (max_length - 3 <? 0) eqn:E'; [apply Z.ltb_lt in E'; lia|].
    apply Z.leb_gt in H. now rewrite Z.min_l by lia.
  - unfold truncate_string at 1.
    assert (H : (Z.of_nat (String.length (truncate_string s max_length))
                 <=? max_length) = true) by (apply Z.leb_le; lia).
    now rewrite H.
Qed.

Lemma truncate_string_fits_witness :
  Z.of_nat (String.length (truncate_string "nonexistent_command_xyz" 20))
  = Z.min (Z.of_nat (String.length "nonexistent_command_xyz")) 20 /\
  truncate_string "nonexistent_command_xyz" 20 = "nonexistent_comma..."%string.
Proof.
  destruct (truncate_string_fits "nonexistent_command_xyz" 20) as (H & _).
  - lia.
  - split; [exact H | reflexivity].
Defined.

(** Below three the limit is not kept: [max_length - 3] is negative and
    Python's slice then counts from the end, so a string longer than the
    limit comes back longer than the limit. *)
Theorem truncate_string_short_limit (s : string) (max_length : Z)
    (Hlimit : max_length < 3)
    (Hlong : max_length < Z.of_nat (String.length s)) :
  Z.of_nat (String.length (truncate_string s max_length))
  = Z.max 0 (Z.of_nat (String.length s) + max_length - 3) + 3 /\
  max_length < Z.of_nat (String.length (truncate_string s max_length)).
Proof.
  unfold truncate_string. apply Z.leb_gt in Hlong. rewrite Hlong.
  apply Z.leb_gt in Hlong. rewrite length_truncated.
  assert (E : (max_length - 3 <? 0) = true) by (apply Z.ltb_lt; lia).
  rewrite E. split; lia.
Qed.

Lemma truncate_string_short_limit_witness :
  Z.of_nat (String.length (truncate_string "abcdef" 2))
  = Z.max 0 (Z.of_nat (String.length "abcdef") + 2 - 3) + 3 /\
  2 < Z.of_nat (String.length (truncate_string "abcdef" 2)).
Proof. apply truncate_string_short_limit; simpl; lia. Defined.

(** ** The worker: [Worker._process_job] and one turn of its loop *)

Lemma length_failure_message (e : Executed) :
  (String.length (failure_message e)
   <= String.length (str_of_Z (exit_code e)) + 512)%nat.
Proof.
  unfold failure_message. rewrite !length_append, length_substring0.
  change (String.length "Exit code ") with 10%nat.
  change (String.length ": ") with 2%nat.
  pose proof (Nat.le_min_l 500 (String.length (stderr e))) as H.
  revert H. generalize (Nat.min 500 (String.length (stderr e))).
  intros k Hk. lia.
Qed.

Lemma process_job_frame (cfg : Config) (execute : string -> Executed)
    (w : string) (job : Job) (now_q now : Z) (s : Store) (k : string) :
  k <> id job ->
  get_job k (fst (process_job cfg execute w job now_q now s)) = get_job k s.
Proof.
  intros Hk. apply String.eqb_neq in Hk.
  unfold process_job. cbv zeta.
  destruct (exit_code (execute (command job)) =? 0).
  - cbn [fst]. unfold handle_job_success.
    now rewrite get_job_update_job_state, Hk.
  - unfold handle_job_failure.
    destruct (get_job (id job) s) as [row|]; [|reflexivity]. cbv zeta.
    destruct (attempts row + 1 >=? max_retries row).
    + cbn [fst]. now rewrite get_job_move_to_dlq, Hk.
    + destruct (retry_time now_q _); cbn [fst]; [|reflexivity].
      now rewrite get_job_increment_job_attempts, Hk.
Qed.

Lemma process_job_cases (cfg : Config) (execute : string -> Executed)
    (w : string) (job : Job) (now_q now : Z) (s : Store) (row : Job) :
  get_job (id job) s = Some row ->
  (exit_code (execute (command job)) = 0 ->
   snd (process_job cfg execute w job now_q now s) = Returned tt /\
   get_job (id job) (fst (process_job cfg execute w job now_q now s))
   = Some (update_job_state_set COMPLETED None (Some w) now row)) /\
  (exit_code (execute (command job)) <> 0 ->
   decides_dlq row = true ->
   snd (process_job cfg execute w job now_q now s) = Returned tt /\
   get_job (id job) (fst (process_job cfg execute w job now_q now s))
   = Some (move_to_dlq_set
             (Some (failure_message (execute (command job)))) now row)) /\
  (forall nra,
      exit_code (execute (command job)) <> 0 ->
      decides_dlq row = false ->
      retry_time now_q (calculate_backoff_delay cfg (attempts row + 1))
      = Some nra ->
      snd (process_job cfg execute w job now_q now s) = Returned tt /\
      get_job (id job) (fst (process_job cfg execute w job now_q now s))
      = Some (increment_job_attempts_set nra
                (Some (failure_message (execute (command job)))) now row)) /\
  (exit_code (execute (command job)) <> 0 ->
   decides_dlq row = false ->
   retry_time now_q (calculate_backoff_delay cfg (attempts row + 1)) = None ->
   process_job cfg execute w job now_q now s = (s, Raised OverflowError)).
Proof.
  intros Hrow. unfold process_job. cbv zeta.
  split; [|split; [|split]].
  - intros E. apply Z.eqb_eq in E. rewrite E. cbn [fst snd].
    split; [reflexivity|]. unfold handle_job_success.
    now rewrite get_job_update_job_state, String.eqb_refl, Hrow.
  - intros E D. apply Z.eqb_neq in E. rewrite E.
    rewrite (handle_job_failure_dlq cfg _ _ w now_q now s row Hrow D).
    cbn [fst snd]. split; [reflexivity|].
    now rewrite get_job_move_to_dlq, String.eqb_refl, Hrow.
  - intros nra E D T. apply Z.eqb_neq in E. rewrite E.
    rewrite (handle_job_failure_retry cfg _ _ w now_q now s row nra
               Hrow D T).
    cbn [fst snd]. split; [reflexivity|].
    now rewrite get_job_increment_job_attempts, String.eqb_refl, Hrow.
  - intros E D T. apply Z.eqb_neq in E. rewrite E.
    now rewrite (handle_job_failure_raise cfg _ _ w now_q now s row
                   Hrow D T).
Qed.

Lemma process_job_returned (cfg : Config) (execute : string -> Executed)
    (w : string) (job : Job) (now_q now : Z) (s : Store) (row : Job) :
  get_job (id job) s = Some row ->
  snd (process_job cfg execute w job now_q now s) = Returned tt ->
  exists row',
    get_job (id job) (fst (process_job cfg execute w job now_q now s))
    = Some row' /\
    state row' <> PROCESSING.
Proof.
  intros Hrow Hret.
  destruct (process_job_cases cfg execute w job now_q now s row Hrow)
    as (Hok & Hdlq & Hfail & Hraise).
  destruct (Z.eq_dec (exit_code (execute (command job))) 0) as [E | E].
  - destruct (Hok E) as [_ Hget]. eexists. split; [exact Hget|].
    discriminate.
  - destruct (decides_dlq row) eqn:D.
    + destruct (Hdlq E eq_refl) as [_ Hget]. eexists.
      split; [exact Hget | discriminate].
    + destruct (retry_time now_q
                  (calculate_backoff_delay cfg (attempts row + 1)))
        as [nra|] eqn:T.
      * destruct (Hfail nra E eq_refl eq_refl) as [_ Hget]. eexists.
        split; [exact Hget | discriminate].
      * rewrite (Hraise E eq_refl eq_refl) in Hret. discriminate.
Qed.

(** [Worker._process_job], for a stored job and a clock that shows a
    [datetime].  Exit code 0 completes the job and clears its error.  Any
    other exit code reports the failure with the message
    "Exit code <code>: <stderr>", the stderr cut to 500 characters: the
    job goes to the DLQ when the budget is spent, and otherwise becomes
    failed, unowned, due at [now + min(backoff_base ** attempts_after,
    backoff_max_delay)] seconds; but when that instant is past
    [datetime.max] the call raises [OverflowError] and the store is as it
    was, the job still processing.  No other job is touched. *)
Theorem process_job_outcome (cfg : Config) (execute : string -> Executed)
    (w : string) (job : Job) (now_q now : Z) (s : Store) (row : Job)
    (Hrow : get_job (id job) s = Some row)
    (Hclock : 0 <= now_q <= 315537897599999999) :
  let e := execute (command job) in
  let text :=
    ("Exit code "
     ++ DecimalString.NilZero.string_of_int (Z.to_int (exit_code e))
     ++ ": " ++ substring 0 500 (stderr e))%string in
  let due :=
    now_q + 1000000 * Z.min (backoff_base cfg ^ (attempts row + 1))
                            (backoff_max_delay cfg) in
  let s' := fst (process_job cfg execute w job now_q now s) in
  let res := snd (process_job cfg execute w job now_q now s) in
  (exit_code e = 0 ->
   res = Returned tt /\
   exists row',
     get_job (id job) s' = Some row' /\ state row' = COMPLETED /\
     completed_at row' = Some now /\ error_message row' = None) /\
  (exit_code e <> 0 -> max_retries row <= attempts row + 1 ->
   res = Returned tt /\
   exists row',
     get_job (id job) s' = Some row' /\ state row' = DLQ /\
     worker_id row' = Some ""%string /\ error_message row' = Some text) /\
  (exit_code e <> 0 -> attempts row + 1 < max_retries row ->
   0 <= due <= 315537897599999999 ->
   res = Returned tt /\
   exists row',
     get_job (id job) s' = Some row' /\ state row' = FAILED /\
     worker_id row' = Some ""%string /\ error_message row' = Some text /\
     attempts row' = attempts row + 1 /\ next_retry_at row' = Some due) /\
  (exit_code e <> 0 -> attempts row + 1 < max_retries row ->
   ~ (0 <= due <= 315537897599999999) ->
   res = Raised OverflowError /\ s' = s) /\
  (forall k, k <> id job -> get_job k s' = get_job k s) /\
  (String.length text
   <= String.length
        (DecimalString.NilZero.string_of_int (Z.to_int (exit_code e)))
      + 512)%nat.
Proof.
  cbv zeta.
  destruct (process_job_cases cfg execute w job now_q now s row Hrow)
    as (Hok & Hdlq & Hfail & Hraise).
  destruct (retry_time_spec now_q
              (Z.min (backoff_base cfg ^ (attempts row + 1))
                     (backoff_max_delay cfg)) Hclock) as [Hin Hout].
  split; [|split; [|split; [|split; [|split]]]].
  - intros E. destruct (Hok E) as [Hres Hget]. split; [exact Hres|].
    eexists. split; [exact Hget|]. repeat split.
  - intros E Hspent.
    destruct (Hdlq E (proj2 (decides_dlq_true row) Hspent)) as [Hres Hget].
    split; [exact Hres|]. eexists. split; [exact Hget|]. repeat split.
  - intros E Hleft Hrange.
    destruct (Hfail _ E (proj2 (decides_dlq_false row) Hleft) (Hin Hrange))
      as [Hres Hget].
    split; [exact Hres|]. eexists. split; [exact Hget|]. repeat split.
  - intros E Hleft Hrange.
    rewrite (Hraise E (proj2 (decides_dlq_false row) Hleft) (Hout Hrange)).
    split; reflexivity.
  - intros k Hk. now apply process_job_frame.
  - exact (length_failure_message (execute (command job))).
Qed.

Lemma process_job_outcome_witness :
  exists row',
    get_job "a"
      (fst (process_job DEFAULTS
              (fun _ => mkExecuted (-1) ""
                          "Command timed out after 300 seconds")
              "w1"
              (mkJob "a" "true" PROCESSING 0 3 0 0 None None None None
                     (Some "w1"%string) None)
              20 21 s1_leased))
    = Some row' /\
    state row' = FAILED /\
    worker_id row' = Some ""%string /\
    error_message row'
    = Some "Exit code -1: Command timed out after 300 seconds"%string /\
    attempts row' = 1 /\ next_retry_at row' = Some 2000020.
Proof.
  refine (proj2 (proj1 (proj2 (proj2
            (process_job_outcome DEFAULTS
               (fun _ => mkExecuted (-1) ""
                           "Command timed out after 300 seconds")
               "w1"
               (mkJob "a" "true" PROCESSING 0 3 0 0 None None None None
                      (Some "w1"%string) None)
               20 21 s1_leased _ eq_refl _))) _ _ _)).
  - lia.
  - simpl. lia.
  - simpl. lia.
  - simpl. lia.
Defined.

Lemma lease_cases (w : string) (now : Z) (s : Store) :
  primary_key (jobs s) ->
  get_next_pending_job w now s = (s, None) \/
  exists row,
    In row (jobs s) /\ eligible now row /\
    snd (get_next_pending_job w now s) = Some (lease_dict w row) /\
    get_job (id row) (fst (get_next_pending_job w now s))
    = Some (lease_set w now row) /\
    (forall k, k <> id row ->
               get_job k (fst (get_next_pending_job w now s)) = get_job k s).
Proof.
  intros Hpk.
  destruct (hd_error (order_by_created_at_asc
                        (filter (lease_select now) (jobs s)))) as [row|] eqn:E.
  - right. destruct (get_next_pending_job_selected w now s row E)
      as (Hin & Hel & _ & Hsnd & Hget).
    exists row. split; [exact Hin|]. split; [exact Hel|].
    split; [exact Hsnd|]. split.
    + rewrite Hget, (In_get_job s row Hpk Hin). simpl.
      rewrite String.eqb_refl.
      destruct Hel as [_ Hun]. apply unowned_spec in Hun. now rewrite Hun.
    + intros k Hk. rewrite Hget.
      destruct (get_job k s) as [r|] eqn:Er; [|reflexivity].
      apply get_job_In in Er. destruct Er as [_ <-].
      apply String.eqb_neq in Hk. simpl. now rewrite Hk.
  - left. apply get_next_pending_job_none. exact E.
Qed.

Lemma process_job_primary_key (cfg : Config) (execute : string -> Executed)
    (w : string) (job : Job) (now_q now : Z) (s : Store) :
  primary_key (jobs s) ->
  primary_key (jobs (fst (process_job cfg execute w job now_q now s))).
Proof.
  intros Hpk. unfold process_job. cbv zeta.
  destruct (exit_code (execute (command job)) =? 0).
  - exact (step_primary_key cfg s (OpComplete (id job) w now) Hpk).
  - pose proof (step_primary_key cfg s
                  (OpFail (id job) (failure_message (execute (command job)))
                          w now_q now) Hpk) as H.
    cbn [step] in H.
    destruct (handle_job_failure cfg (id job)
                (failure_message (execute (command job))) w now_q now s)
      as [s' [d | exn]]; exact H.
Qed.

(** A turn of the worker's loop (lease, then process; the heartbeat
    aside), over a table with unique ids and with a clock that shows a
    [datetime].  A turn that finds no job changes nothing.  A turn that
    leases a job runs the command of the stored row and reports: exit
    code 0 leaves the job completed; any other exit code leaves it in
    the DLQ when the budget is spent and otherwise failed, due at
    [now + min(backoff_base ** attempts_after, backoff_max_delay)]
    seconds; but when that instant is past [datetime.max] the turn raises
    [OverflowError] with the job still processing under the worker, and
    the [finally] block of the loop then returns it to pending.  A turn
    that returns leaves no lease behind: every row that is processing
    afterwards was processing, unchanged, before. *)
Theorem worker_turn_leaves_no_lease (cfg : Config)
    (execute : string -> Executed) (w : string) (now_lease now_q now : Z)
    (s : Store)
    (Hpk : primary_key (jobs s))
    (Hclock : 0 <= now_q <= 315537897599999999) :
  let turn := worker_turn cfg execute w now_lease now_q now s in
  (snd (get_next_pending_job w now_lease s) = None ->
   turn = (s, Returned tt)) /\
  (forall job,
      snd (get_next_pending_job w now_lease s) = Some job ->
      exists row,
        get_job (id job) s = Some row /\
        command job = command row /\
        eligible now_lease row /\
        let e := execute (command row) in
        let due :=
          now_q + 1000000 * Z.min (backoff_base cfg ^ (attempts row + 1))
                                  (backoff_max_delay cfg) in
        (exit_code e = 0 ->
         snd turn = Returned tt /\
         exists row',
           get_job (id row) (fst turn) = Some row' /\
           state row' = COMPLETED) /\
        (exit_code e <> 0 -> max_retries row <= attempts row + 1 ->
         snd turn = Returned tt /\
         exists row',
           get_job (id row) (fst turn) = Some row' /\ state row' = DLQ) /\
        (exit_code e <> 0 -> attempts row + 1 < max_retries row ->
         0 <= due <= 315537897599999999 ->
         snd turn = Returned tt /\
         exists row',
           get_job (id row) (fst turn) = Some row' /\
           state row' = FAILED /\ next_retry_at row' = Some due) /\
        (exit_code e <> 0 -> attempts row + 1 < max_retries row ->
         ~ (0 <= due <= 315537897599999999) ->
         snd turn = Raised OverflowError /\
         (exists row',
             get_job (id row) (fst turn) = Some row' /\
             state row' = PROCESSING /\ worker_id row' = Some w) /\
         exists row'',
           get_job (id row) (worker_finally w (fst turn)) = Some row'' /\
           state row'' = PENDING /\ worker_id row'' = Some ""%string)) /\
  (snd turn = Returned tt ->
   forall r',
     In r' (jobs (fst turn)) -> state r' = PROCESSING -> In r' (jobs s)).
Proof.
  cbv zeta. unfold worker_turn.
  destruct (lease_cases w now_lease s Hpk)
    as [Hnone | (row & Hin & Hel & Hsnd & Hrow & Hothers)].
  - rewrite Hnone. cbn [fst snd]. split; [reflexivity|]. split.
    + intros job H. discriminate.
    + intros _ r' Hr' _. exact Hr'.
  - pose proof (step_primary_key cfg s (OpLease w now_lease) Hpk) as Hpk1.
    cbn [step] in Hpk1.
    destruct (get_next_pending_job w now_lease s) as [s1 ret] eqn:E.
    cbn [fst snd] in *. subst ret.
    change (id row) with (id (lease_dict w row)) in Hrow.
    destruct (process_job_cases cfg execute w (lease_dict w row) now_q now
                s1 _ Hrow) as (Hok & Hdlq & Hfail & Hraise).
    destruct (retry_time_spec now_q
                (Z.min (backoff_base cfg ^ (attempts row + 1))
                       (backoff_max_delay cfg)) Hclock) as [Hrin Hrout].
    split; [discriminate|]. split.
    + intros job [= <-]. exists row.
      split; [exact (In_get_job s row Hpk Hin)|].
      split; [reflexivity|]. split; [exact Hel|].
      change (command (lease_dict w row)) with (command row) in *.
      change (id (lease_dict w row)) with (id row) in *.
      change (attempts (lease_set w now_lease row)) with (attempts row) in *.
      split; [|split; [|split]].
      * intros E0. destruct (Hok E0) as [Hres Hget].
        split; [exact Hres|]. eexists. split; [exact Hget | reflexivity].
      * intros E0 Hspent.
        destruct (Hdlq E0 (proj2 (decides_dlq_true (lease_set w now_lease row))
                                 Hspent)) as [Hres Hget].
        split; [exact Hres|]. eexists. split; [exact Hget | reflexivity].
      * intros E0 Hleft Hrange.
        destruct (Hfail _ E0
                    (proj2 (decides_dlq_false (lease_set w now_lease row))
                           Hleft) (Hrin Hrange)) as [Hres Hget].
        split; [exact Hres|]. eexists. split; [exact Hget|].
        split; reflexivity.
      * intros E0 Hleft Hrange.
        rewrite (Hraise E0
                   (proj2 (decides_dlq_false (lease_set w now_lease row))
                          Hleft) (Hrout Hrange)).
        cbn [fst snd]. split; [reflexivity|]. split.
        -- eexists. split; [exact Hrow|]. split; reflexivity.
        -- unfold worker_finally.
           rewrite get_job_deregister_worker, Hrow. simpl.
           unfold deregister_worker_where, worker_id_is. simpl.
           rewrite String.eqb_refl. simpl.
           eexists. split; [reflexivity|]. split; reflexivity.
    + intros Hret r' Hr' Hst.
      pose proof (In_get_job _ r'
                    (process_job_primary_key cfg execute w (lease_dict w row)
                       now_q now s1 Hpk1) Hr') as Hg.
      destruct (String.eqb (id r') (id row)) eqn:Eid.
      * apply String.eqb_eq in Eid. exfalso.
        destruct (process_job_returned cfg execute w (lease_dict w row)
                    now_q now s1 _ Hrow Hret) as (row' & Hget' & Hnp).
        change (id (lease_dict w row)) with (id row) in Hget'.
        rewrite Eid, Hget' in Hg. injection Hg as <-. contradiction.
      * apply String.eqb_neq in Eid.
        rewrite (process_job_frame cfg execute w (lease_dict w row) now_q now
                   s1 (id r') Eid), (Hothers (id r') Eid) in Hg.
        now apply get_job_In in Hg.
Qed.

Lemma worker_turn_leaves_no_lease_witness :
  primary_key (jobs two_pending) /\
  (forall r',
      In r' (jobs (fst (worker_turn DEFAULTS
                          (fun _ => mkExecuted 1 "" "boom") "w1" 10 11 12
                          two_pending))) ->
      state r' = PROCESSING -> In r' (jobs two_pending)) /\
  snd (worker_turn cfg_far (fun _ => mkExecuted 1 "" "boom") "w1"
                   nov_2026 nov_2026 nov_2026 two_pending)
  = Raised OverflowError /\
  exists row'',
    get_job "y"
      (worker_finally "w1"
         (fst (worker_turn cfg_far (fun _ => mkExecuted 1 "" "boom") "w1"
                           nov_2026 nov_2026 nov_2026 two_pending)))
    = Some row'' /\
    state row'' = PENDING /\ worker_id row'' = Some ""%string.
Proof.
  assert (Hpk : primary_key (jobs two_pending)).
  { unfold primary_key. simpl.
    repeat constructor; simpl; intuition discriminate. }
  assert (Hclock : 0 <= nov_2026 <= 315537897599999999)
    by (unfold nov_2026; lia).
  split; [exact Hpk|]. split.
  - refine (proj2 (proj2 (worker_turn_leaves_no_lease DEFAULTS
                            (fun _ => mkExecuted 1 "" "boom") "w1" 10 11 12
                            two_pending Hpk _)) eq_refl).
    lia.
  - destruct (proj1 (proj2 (worker_turn_leaves_no_lease cfg_far
                              (fun _ => mkExecuted 1 "" "boom") "w1"
                              nov_2026 nov_2026 nov_2026 two_pending
                              Hpk Hclock)) _ eq_refl)
      as (row & Hget & _ & _ & _ & _ & _ & Hraise).
    injection Hget as <-.
    destruct Hraise as (Hres & _ & Hfin).
    + discriminate.
    + simpl. lia.
    + simpl. unfold nov_2026. lia.
    + split; [exact Hres | exact Hfin].
Defined.

(** ** The configuration: [Config.set], [Config.get], [Config.reset] *)

Lemma dict_get_set (key k : string) (v : ConfigValue) (d : ConfigDict) :
  dict_get k (dict_set key v d)
  = if String.eqb key k then Some v else dict_get k d.
Proof.
  induction d as [|[k0 v0] d IH]; simpl.
  - reflexivity.
  - destruct (String.eqb k0 key) eqn:E0; simpl.
    + apply String.eqb_eq in E0. subst k0.
      now destruct (String.eqb key k).
    + rewrite IH. destruct (String.eqb k0 k) eqn:E1; [|reflexivity].
      apply String.eqb_eq in E1. subst k0.
      rewrite String.eqb_sym. now rewrite E0.
Qed.

Lemma is_numeric_key_spec (key : string) :
  is_numeric_key key = true <-> In key numeric_keys.
Proof.
  unfold is_numeric_key. rewrite existsb_exists. split.
  - intros (x & Hin & Heq). apply String.eqb_eq in Heq. now subst.
  - intros Hin. exists key. split; [exact Hin | apply String.eqb_refl].
Qed.

(** [Config.set] validates the numeric options: a value that is not an
    integer, or a negative one, is rejected with [False] and the
    configuration is left as it was. *)
Theorem config_set_rejects (py_int : string -> option Z) (saved : bool)
    (key : string) (value : ConfigValue) (d : ConfigDict)
    (Hkey : In key numeric_keys)
    (Hbad :
       coerce_int py_int value = None \/
       exists n, coerce_int py_int value = Some n /\ n < 0) :
  config_set py_int saved key value d = (d, false).
Proof.
  unfold config_set. apply is_numeric_key_spec in Hkey. rewrite Hkey.
  destruct Hbad as [-> | (n & -> & Hn)]; [reflexivity|].
  apply Z.ltb_lt in Hn. now rewrite Hn.
Qed.

Lemma config_set_rejects_witness :
  config_set (fun _ => None) true "max_retries" (VInt (-1)) DEFAULTS_dict
  = (DEFAULTS_dict, false) /\
  config_set (fun _ => None) true "job_timeout" (VStr "soon") DEFAULTS_dict
  = (DEFAULTS_dict, false).
Proof.
  split.
  - apply config_set_rejects.
    + simpl. tauto.
    + right. exists (-1). split; [reflexivity | lia].
  - apply config_set_rejects.
    + simpl. tauto.
    + left. reflexivity.
Defined.

(** An accepted [Config.set] is seen by [Config.get] at once: a numeric
    option holds the integer the value denotes, any other key the value
    as given; the other keys keep their values; and the result of the
    call is only the result of saving the file, so a failed save returns
    [False] although the configuration in memory has changed. *)
Theorem config_set_then_get (py_int : string -> option Z) (saved : bool)
    (key : string) (value stored : ConfigValue) (d : ConfigDict)
    (Haccepted :
       (In key numeric_keys /\
        exists n, coerce_int py_int value = Some n /\ 0 <= n /\
                  stored = VInt n) \/
       (~ In key numeric_keys /\ stored = value)) :
  snd (config_set py_int saved key value d) = saved /\
  (forall default,
      config_get key default (fst (config_set py_int saved key value d))
      = Some stored) /\
  (forall k default,
      k <> key ->
      config_get k default (fst (config_set py_int saved key value d))
      = config_get k default d).
Proof.
  assert (Heq : config_set py_int saved key value d
                = (dict_set key stored d, saved)).
  { unfold config_set.
    destruct Haccepted as [(Hk & n & Hc & Hn & ->) | (Hk & ->)].
    - apply is_numeric_key_spec in Hk. rewrite Hk, Hc.
      apply Z.ltb_ge in Hn. now rewrite Hn.
    - destruct (is_numeric_key key) eqn:E; [|reflexivity].
      apply is_numeric_key_spec in E. contradiction. }
  rewrite Heq. cbn [fst snd]. unfold config_get.
  split; [reflexivity|]. split.
  - intros default. now rewrite dict_get_set, String.eqb_refl.
  - intros k default Hk. rewrite dict_get_set.
    apply not_eq_sym in Hk. apply String.eqb_neq in Hk. now rewrite Hk.
Qed.

Lemma config_set_then_get_witness :
  snd (config_set (fun _ => Some 7) false "max_retries" (VStr "7")
                  DEFAULTS_dict) = false /\
  config_get "max_retries" None
             (fst (config_set (fun _ => Some 7) false "max_retries"
                              (VStr "7") DEFAULTS_dict))
  = Some (VInt 7).
Proof.
  destruct (config_set_then_get (fun _ => Some 7) false "max_retries"
              (VStr "7") (VInt 7) DEFAULTS_dict) as (H1 & H2 & _).
  - left. split; [simpl; tauto|]. exists 7.
    split; [reflexivity|]. split; [lia | reflexivity].
  - split; [exact H1 | exact (H2 None)].
Defined.

(** [Config.reset]: a known key gets its default back and nothing else
    changes; an unknown key is refused with [False]; without a key the
    whole configuration is the defaults again. *)
Theorem config_reset_effect (saved : bool) (d : ConfigDict) :
  (forall k v,
      k <> ""%string -> dict_get k DEFAULTS_dict = Some v ->
      snd (config_reset saved (Some k) d) = saved /\
      dict_get k (fst (config_reset saved (Some k) d)) = Some v /\
      forall k', k' <> k ->
                 dict_get k' (fst (config_reset saved (Some k) d))
                 = dict_get k' d) /\
  (forall k,
      k <> ""%string -> dict_get k DEFAULTS_dict = None ->
      config_reset saved (Some k) d = (d, false)) /\
  config_reset saved None d = (DEFAULTS_dict, saved) /\
  config_reset saved (Some ""%string) d = (DEFAULTS_dict, saved).
Proof.
  split; [|split; [|split; reflexivity]].
  - intros k v Hk Hv. unfold config_reset.
    apply String.eqb_neq in Hk. rewrite Hk, Hv. cbn [fst snd].
    split; [reflexivity|]. split.
    + now rewrite dict_get_set, String.eqb_refl.
    + intros k' Hk'. rewrite dict_get_set.
      apply not_eq_sym in Hk'. apply String.eqb_neq in Hk'. now rewrite Hk'.
  - intros k Hk Hv. unfold config_reset.
    apply String.eqb_neq in Hk. now rewrite Hk, Hv.
Qed.

Lemma defaults_numeric (k : string) :
  In k numeric_keys ->
  exists n, dict_get k DEFAULTS_dict = Some (VInt n) /\ 0 <= n.
Proof.
  simpl. intros [<- | [<- | [<- | [<- | [<- | [<- | []]]]]]];
    eexists; (split; [reflexivity | lia]).
Qed.

Lemma config_evolves_numeric (py_int : string -> option Z) (d : ConfigDict) :
  config_evolves py_int d ->
  forall k, In k numeric_keys ->
            exists n, dict_get k d = Some (VInt n) /\ 0 <= n.
Proof.
  intros Hev. induction Hev as [ | d saved key value _ IH | d saved key _ IH ];
    intros k Hk.
  - now apply defaults_numeric.
  - unfold config_set. destruct (is_numeric_key key) eqn:E.
    + destruct (coerce_int py_int value) as [n|]; [|now apply IH].
      destruct (n <? 0) eqn:En; [now apply IH|]. cbn [fst].
      rewrite dict_get_set. destruct (String.eqb key k); [|now apply IH].
      apply Z.ltb_ge in En. eauto.
    + cbn [fst]. rewrite dict_get_set.
      destruct (String.eqb key k) eqn:Ek; [|now apply IH].
      apply String.eqb_eq in Ek. subst k.
      apply is_numeric_key_spec in Hk. congruence.
  - unfold config_reset. destruct key as [key|]; [|now apply defaults_numeric].
    destruct (String.eqb key ""); [now apply defaults_numeric|].
    destruct (dict_get key DEFAULTS_dict) as [v|] eqn:Ev; [|now apply IH].
    cbn [fst]. rewrite dict_get_set.
    destruct (String.eqb key k) eqn:Ek; [|now apply IH].
    apply String.eqb_eq in Ek. subst k.
    destruct (defaults_numeric key Hk) as (n & Hn & Hpos).
    rewrite Hn in Ev. injection Ev as <-. eauto.
Qed.

(** Whatever sequence of [set] and [reset] calls is applied to the
    default configuration, every numeric option stays a non-negative
    integer. *)
Theorem config_numeric_options (py_int : string -> option Z)
    (d : ConfigDict) (k : string)
    (Hev : config_evolves py_int d) (Hk : In k numeric_keys) :
  exists n, config_get k None d = Some (VInt n) /\ 0 <= n.
Proof.
  destruct (config_evolves_numeric py_int d Hev k Hk) as (n & Hn & Hpos).
  exists n. unfold config_get. now rewrite Hn.
Qed.

Lemma config_numeric_options_witness :
  exists n,
    config_get "backoff_base" None
      (fst (config_set (fun _ => None) true "backoff_base" (VInt (-2))
              (fst (config_set (fun _ => None) true "backoff_base" (VInt 5)
                      DEFAULTS_dict))))
    = Some (VInt n) /\ 0 <= n.
Proof.
  apply (config_numeric_options (fun _ => None)).
  - apply ce_set. apply ce_set. apply ce_defaults.
  - simpl. tauto.
Defined.

(** ** Back into the queue: reclaim and manual retry, then lease *)

Lemma lease_of_eligible (w : string) (now : Z) (s : Store) (r : Job) :
  In r (jobs s) -> eligible now r ->
  exists row,
    snd (get_next_pending_job w now s) = Some (lease_dict w row) /\
    created_at row <= created_at r.
Proof.
  intros Hin Hel.
  destruct (hd_error (order_by_created_at_asc
                        (filter (lease_select now) (jobs s)))) as [row|] eqn:E.
  - destruct (get_next_pending_job_selected w now s row E)
      as (_ & _ & Hmin & Hsnd & _).
    exists row. split; [exact Hsnd | exact (Hmin r Hin Hel)].
  - exfalso. destruct (get_next_pending_job_none w now s E) as [_ Hno].
    exact (Hno r Hin Hel).
Qed.

(** Reclaimed work is available again: a job that was processing under a
    worker is, after the deregistration of that worker, eligible for a
    lease at any time, so the next lease by any worker returns that job
    or an older one. *)
Theorem reclaimed_job_is_leasable (w w' : string) (now : Z) (s : Store)
    (r : Job)
    (Hin : In r (jobs s))
    (Hown : worker_id r = Some w)
    (Hproc : state r = PROCESSING) :
  In (deregister_worker_set r) (jobs (fst (deregister_worker w s))) /\
  eligible now (deregister_worker_set r) /\
  exists leased,
    snd (get_next_pending_job w' now (fst (deregister_worker w s)))
    = Some leased /\
    state leased = PROCESSING /\ worker_id leased = Some w' /\
    created_at leased <= created_at r.
Proof.
  assert (Hrow : In (deregister_worker_set r)
                    (jobs (fst (deregister_worker w s)))).
  { rewrite deregister_worker_jobs. apply in_map_iff. exists r.
    split; [|exact Hin].
    assert (E : deregister_worker_where w r = true)
      by (apply deregister_worker_where_spec; auto).
    now rewrite E. }
  assert (Hel : eligible now (deregister_worker_set r)).
  { unfold eligible. simpl. split; [now left | now right]. }
  split; [exact Hrow|]. split; [exact Hel|].
  destruct (lease_of_eligible w' now _ _ Hrow Hel) as (row & Hsnd & Hle).
  exists (lease_dict w' row). repeat split; assumption.
Qed.

Lemma reclaimed_job_is_leasable_witness :
  exists leased,
    snd (get_next_pending_job "w2" 99 (fst (deregister_worker "w1" s1_leased)))
    = Some leased /\
    state leased = PROCESSING /\ worker_id leased = Some "w2"%string /\
    created_at leased <= 0.
Proof.
  refine (proj2 (proj2 (reclaimed_job_is_leasable "w1" "w2" 99 s1_leased
                          (mkJob "a" "true" PROCESSING 0 3 0 10 (Some 10)
                                 None None None (Some "w1"%string) None)
                          _ eq_refl eq_refl))).
  left. reflexivity.
Defined.

(** A manual retry does not wait for the backoff: the retried job is
    eligible for a lease at any time, whatever its [next_retry_at], so the
    next lease returns that job or an older one. *)
Theorem retried_job_is_leasable (job_id : string) (now : Z) (s : Store)
    (job : Job)
    (Hjob : get_job job_id s = Some job)
    (Hstate : state job = FAILED \/ state job = DLQ) :
  exists row,
    get_job job_id (fst (retry_job job_id now s)) = Some row /\
    (forall t, eligible t row) /\
    (forall w t,
        exists leased,
          snd (get_next_pending_job w t (fst (retry_job job_id now s)))
          = Some leased /\
          state leased = PROCESSING /\ worker_id leased = Some w /\
          created_at leased <= created_at job).
Proof.
  rewrite (retry_job_permitted job_id now s job Hjob Hstate). cbn [fst].
  pose proof (get_job_update_job_state job_id PENDING None None now job_id s)
    as Hget.
  rewrite String.eqb_refl, Hjob in Hget. simpl in Hget.
  assert (Hel : forall t,
             eligible t (update_job_state_set PENDING None None now job)).
  { intros t. unfold eligible. simpl. split; [now left | now right]. }
  eexists. split; [exact Hget|]. split; [exact Hel|].
  intros w t. apply get_job_In in Hget. destruct Hget as [Hin _].
  destruct (lease_of_eligible w t _ _ Hin (Hel t)) as (row & Hsnd & Hle).
  exists (lease_dict w row). repeat split; assumption.
Qed.

Lemma retried_job_is_leasable_witness :
  exists row,
    get_job "a" (fst (retry_job "a" 30 failed_once)) = Some row /\
    (forall t, eligible t row) /\
    (forall w t,
        exists leased,
          snd (get_next_pending_job w t (fst (retry_job "a" 30 failed_once)))
          = Some leased /\
          state leased = PROCESSING /\ worker_id leased = Some w /\
          created_at leased <= 0).
Proof.
  exact (retried_job_is_leasable "a" 30 failed_once _ eq_refl
           (or_introl eq_refl)).
Defined.
